(** * Human-play episode runner of the NetHack harness (play_nethack_human.py)

    A shallow embedding of the command table [NLE_ACTIONS], the [GameTracker]
    class, the character-grid renderer and the interactive loop of
    [run_human_episode], together with the properties the specification
    states about them.

    Conventions.
    - A Python [str] is a Rocq [string]; each [ascii] stands for the code
      point with the same number (0..255).
    - A Python [dict] is a [gmap]; a dict whose iteration order is observed
      keeps its item list next to it.
    - Python exceptions are values of type [exn] (the text of [str(e)]);
      a call that may raise returns a sum.
    - [run_human_episode] is the function as written.  It leaves before the
      loop on every path: [np.random.seed] rejects a seed outside
      0..2^32-1 (line 209), setup failures return an error record
      (lines 230-243), and after a successful setup [csv.writer] raises on
      its two-character [escapechar] (line 246).  The loop and the end of
      the function (lines 247-351) are embedded as [while_loop] and
      [episode_from]; their properties are stated from a state of the loop
      variables. *)

From Stdlib Require Import ZArith NArith Ascii String List Lia.
From Stdlib.Strings Require Import Byte.
From Stdlib Require QArith.
From stdpp Require Import gmap strings list fin_maps pretty.

Local Open Scope string_scope.
Local Open Scope Z_scope.

(** ** Python string primitives used by the command reader *)

Module PyStr.

(** [str.isspace] on one character: the white space of [str.strip] and
    [str.split] among the code points below 256. *)
Definition isspace (c : ascii) : bool :=
  let n := N_of_ascii c in
  ((9 <=? n) && (n <=? 13) || (28 <=? n) && (n <=? 32)
   || (n =? 133) || (n =? 160))%N.

(** [str.lower] on one character. *)
Definition lower_char (c : ascii) : ascii :=
  let n := N_of_ascii c in
  if ((65 <=? n) && (n <=? 90)
      || (192 <=? n) && (n <=? 222) && negb (n =? 215))%N
  then ascii_of_N (n + 32) else c.

Fixpoint lower (s : string) : string :=
  match s with
  | EmptyString => EmptyString
  | String c r => String (lower_char c) (lower r)
  end.

Fixpoint lstrip (s : string) : string :=
  match s with
  | EmptyString => EmptyString
  | String c r => if isspace c then lstrip r else s
  end.

Fixpoint rstrip (s : string) : string :=
  match s with
  | EmptyString => EmptyString
  | String c r =>
      match rstrip r with
      | EmptyString => if isspace c then EmptyString else String c EmptyString
      | r' => String c r'
      end
  end.

Definition strip (s : string) : string := rstrip (lstrip s).

(** [s.startswith(p)] *)
Definition startswith (p s : string) : bool := String.prefix p s.

(** [s.split()]: the maximal runs of non-space characters, in order.
    [tok] is the run being read. *)
Fixpoint split_go (tok s : string) : list string :=
  match s with
  | EmptyString => match tok with EmptyString => [] | _ => [tok] end
  | String c r =>
      if isspace c
      then match tok with
           | EmptyString => split_go EmptyString r
           | _ => tok :: split_go EmptyString r
           end
      else split_go (tok +:+ String c EmptyString) r
  end.

Definition split (s : string) : list string := split_go EmptyString s.

Definition digit_of (c : ascii) : option N :=
  let n := N_of_ascii c in
  if ((48 <=? n) && (n <=? 57))%N then Some (n - 48)%N else None.

(** The digits of an [int(...)] literal: decimal digits, any two of them
    separated by at most one underscore.  [after_digit] tells whether the
    previous character was a digit. *)
Fixpoint int_digits (acc : N) (after_digit : bool) (s : string) : option N :=
  match s with
  | EmptyString => if after_digit then Some acc else None
  | String c r =>
      match digit_of c with
      | Some d => int_digits (10 * acc + d)%N true r
      | None =>
          if Ascii.eqb c "_" && after_digit
          then int_digits acc false r
          else None
      end
  end.

(** The number of decimal digits in a string. *)
Fixpoint count_digits (s : string) : nat :=
  match s with
  | EmptyString => 0
  | String c r =>
      match digit_of c with
      | Some _ => S (count_digits r)
      | None => count_digits r
      end
  end.

(** [sys.get_int_max_str_digits()]: the interpreter's default limit on the
    digits of a numeral that [int] converts. *)
Definition int_max_str_digits : nat := 4300.

(** The unsigned part of an [int(...)] literal: [ValueError] when it has
    more digits than the limit or is not a numeral. *)
Definition int_literal (s : string) : option N :=
  if (int_max_str_digits <? count_digits s)%nat then None
  else int_digits 0 false s.

(** [int(tok)] for a token without white space: [None] is [ValueError]. *)
Definition py_int (tok : string) : option Z :=
  match tok with
  | String "+" r => Z.of_N <$> int_literal r
  | String "-" r => (fun n => - Z.of_N n) <$> int_literal r
  | _ => Z.of_N <$> int_literal tok
  end.

(** The decimal numeral of an integer, as [str(n)] spells it. *)
Definition py_str_int (n : Z) : string := pretty n.

Fixpoint all_chars (P : ascii -> bool) (s : string) : bool :=
  match s with
  | EmptyString => true
  | String c r => P c && all_chars P r
  end.

(** The characters an [int] literal is made of. *)
Definition int_char (c : ascii) : bool :=
  match digit_of c with
  | Some _ => true
  | None => Ascii.eqb c "_" || Ascii.eqb c "+" || Ascii.eqb c "-"
  end.

Definition visible (c : ascii) : bool := negb (isspace c).

(** A string that is empty or starts with a visible character. *)
Definition head_visible (s : string) : Prop :=
  match s with
  | EmptyString => True
  | String c _ => isspace c = false
  end.

End PyStr.

(** ** The command table *)

(** The items of the dict literal [NLE_ACTIONS], in source order. *)
Definition NLE_ACTIONS_items : list (string * Z) :=
  [ ("more", 0); ("w", 1); ("d", 2); ("s", 3); ("a", 4); ("e", 5);
    ("c", 6); ("z", 7); ("q", 8); ("farnorth", 9);
    ("fareast", 10); ("farsouth", 11); ("farwest", 12);
    ("farnortheast", 13); ("farsoutheast", 14); ("farsouthwest", 15);
    ("farnorthwest", 16);
    ("up", 17); ("down", 18); ("wait", 19); ("kick", 20); ("eat", 21);
    ("search", 22) ].

Definition NLE_ACTIONS : gmap string Z := list_to_map NLE_ACTIONS_items.

(** ** Resolution of one line of operator input
    (run_human_episode, lines 260-287) *)

Inductive unknown_kind :=
  | BadActionIndex   (* "action ..." whose argument [int] rejects *)
  | NotInTable.      (* no key of the table *)

Inductive resolution :=
  | Quit
  | Help
  | ActionList
  | Resolved (action : Z)
  | UnknownCommand (why : unknown_kind).

(** The chain of tests on [action_str], the stripped and lower-cased line. *)
Definition resolve_action_str (table : gmap string Z) (action_str : string)
  : resolution :=
  if String.eqb action_str "quit" then Quit
  else if String.eqb action_str "help" then Help
  else if String.eqb action_str "actionlist" then ActionList
  else if PyStr.startswith "action " action_str then
    match PyStr.split action_str !! 1%nat with
    | Some tok =>
        match PyStr.py_int tok with
        | Some action_idx => Resolved action_idx
        | None => UnknownCommand BadActionIndex        (* ValueError *)
        end
    | None => UnknownCommand BadActionIndex            (* IndexError *)
    end
  else
    match table !! action_str with
    | Some action => Resolved action
    | None => UnknownCommand NotInTable
    end.

(** [action_str = input().strip().lower()] followed by the chain. *)
Definition resolve_command (table : gmap string Z) (line : string)
  : resolution :=
  resolve_action_str table (PyStr.lower (PyStr.strip line)).

(** ** Numbers

    Rewards are Python numbers (floats in the NetHack environment).  The
    harness only adds them up, starting from zero, and divides one total by
    a positive step count; the operations are kept abstract and no law is
    assumed of them, so what is proved holds for machine floats as well as
    for exact numbers. *)

Class Number (R : Type) := {
  num_zero : R;               (* [0] and [0.0] *)
  num_add : R -> R -> R;      (* [a + b] *)
  num_div : R -> nat -> R     (* [a / n], true division by a positive int *)
}.

(** [sum(xs)]: left to right from zero. *)
Definition py_sum {R} `{!Number R} (xs : list R) : R :=
  fold_left num_add xs num_zero.

(** ** Observations *)

#[warnings="-register-all"]
Inductive json :=
  | JNull
  | JBool (b : bool)
  | JInt (z : Z)
  | JStr (s : string)
  | JList (l : list json)
  | JDict (items : list (string * json)).

(** A [numpy.ndarray] of integers: its shape and its row-major buffer. *)
Record ndarray := { nd_shape : list nat; nd_data : list Z }.

(** [a.tolist()]: nested lists, one level per axis. *)
Fixpoint tolist_go (shape : list nat) (data : list Z) : json :=
  match shape with
  | [] => JInt (hd 0 data)
  | n :: rest =>
      let size := fold_right Nat.mul 1%nat rest in
      JList (map (fun i => tolist_go rest (drop (i * size) data)) (seq 0 n))
  end.

Definition tolist (a : ndarray) : json := tolist_go (nd_shape a) (nd_data a).

(** The [tty_chars] array: two axes, dtype uint8. *)
Record char_grid := { g_rows : nat; g_cols : nat; g_data : list byte }.

(** [tty_chars[i, j]] *)
Definition cell (g : char_grid) (i j : nat) : byte :=
  nth (i * g_cols g + j) (g_data g) x00.

(** [chr(code)] for a uint8 code. *)
Definition chr (code : byte) : ascii := ascii_of_byte code.

Definition grid_array (g : char_grid) : ndarray :=
  {| nd_shape := [g_rows g; g_cols g];
     nd_data := map (fun b => Z.of_N (Byte.to_N b)) (g_data g) |}.

(** A value stored in an observation dict. *)
Inductive pyval :=
  | PArray (a : ndarray)           (* [isinstance(v, np.ndarray)] *)
  | PPlain (j : json)              (* a value [json] can write *)
  | PObject (type_name : string).  (* any other object *)

(** The observation dict returned by [reset] and [step], in the insertion
    order of its entries: those before "tty_chars", the entry under
    "tty_chars" if there is one, those after it; and [str(obs)].  With the
    [observation_keys] of [create_nethack_env], "glyphs" and "blstats" come
    before "tty_chars" and four more entries after it. *)
Record observation := {
  items_before : list (string * pyval);
  tty_chars : option char_grid;
  items_after : list (string * pyval);
  obs_repr : string
}.

(** [obs.items()] *)
Definition obs_items (obs : observation) : list (string * pyval) :=
  items_before obs
  ++ match tty_chars obs with
     | Some g => [("tty_chars", PArray (grid_array g))]
     | None => []
     end
  ++ items_after obs.

(** ** The renderer (display_game_state, lines 137-142; the same two loops
    build [obs_str] at lines 296-301) *)

Definition newline : string := String (ascii_of_nat 10) EmptyString.

(** The inner [for j in range(cols)] loop, from the text built so far. *)
Definition render_row (g : char_grid) (i : nat) (ascii_map : string) : string :=
  fold_left (fun acc j => acc +:+ String (chr (cell g i j)) EmptyString)
            (seq 0 (g_cols g)) ascii_map.

(** The outer [for i in range(rows)] loop. *)
Definition render (g : char_grid) : string :=
  fold_left (fun acc i => render_row g i acc +:+ newline)
            (seq 0 (g_rows g)) EmptyString.

(** Row [i] of the grid as a list of codes. *)
Definition grid_row (g : char_grid) (i : nat) : list byte :=
  map (cell g i) (seq 0 (g_cols g)).

Definition grid_rows (g : char_grid) : list (list byte) :=
  map (grid_row g) (seq 0 (g_rows g)).

(** The text the specification describes: the rows in order, each one the
    characters of its codes followed by a newline. *)
Definition row_major_text (rows : list (list byte)) : string :=
  foldr (fun row rest => string_of_list_ascii (map chr row) +:+ newline +:+ rest)
        EmptyString rows.

(** The grid of the specification's example: two rows of three codes. *)
Definition grid_ABCDEF : char_grid :=
  {| g_rows := 2; g_cols := 3; g_data := [x41; x42; x43; x44; x45; x46] |}.

(** A grid with two rows and no column. *)
Definition grid_two_empty_rows : char_grid :=
  {| g_rows := 2; g_cols := 0; g_data := [] |}.

(** ** GameTracker *)

Section Tracker.
Context {R : Type} `{!Number R}.

Record GameTracker := {
  steps : nat;
  total_reward : R;
  rewards : list R;
  actions : gmap string nat;
  last_observation : option observation
}.

(** [GameTracker()] *)
Definition new_tracker : GameTracker :=
  {| steps := 0; total_reward := num_zero; rewards := [];
     actions := ∅; last_observation := None |}.

Definition add_step (action : string) (reward : R)
    (obs : option observation) (self : GameTracker) : GameTracker :=
  {| steps := steps self + 1;
     total_reward := num_add (total_reward self) reward;
     rewards := rewards self ++ [reward];
     actions :=
       match actions self !! action with
       | Some n => <[action := (n + 1)%nat]> (actions self)
       | None => <[action := 1%nat]> (actions self)
       end;
     last_observation :=
       match obs with
       | Some o => Some o
       | None => last_observation self
       end |}.

Record tracker_stats := {
  stat_steps : nat;
  stat_total_reward : R;
  stat_mean_reward : R;
  stat_actions : gmap string nat
}.

Definition get_stats (self : GameTracker) : tracker_stats :=
  {| stat_steps := steps self;
     stat_total_reward := total_reward self;
     stat_mean_reward := num_div (total_reward self) (Nat.max 1 (steps self));
     stat_actions := actions self |}.

(** The tracker after a sequence of [add_step] calls on a fresh one. *)
Definition tracker_after (steps_taken : list (string * R * option observation))
  : GameTracker :=
  fold_left (fun t c => add_step c.1.1 c.1.2 c.2 t) steps_taken new_tracker.

(** The sum of the values of the [actions] dict. *)
Definition action_count_total (m : gmap string nat) : nat :=
  sum_list ((map_to_list m).*2).

(** What every tracker built by [add_step] satisfies. *)
Definition tracker_consistent (t : GameTracker) : Prop :=
  total_reward t = py_sum (rewards t)
  /\ steps t = length (rewards t)
  /\ steps t = action_count_total (actions t).

End Tracker.

Arguments GameTracker R : clear implicits.
Arguments tracker_stats R : clear implicits.

(** ** The per-step snapshot (lines 322-328) *)

(** The loop over [obs.items()] that fills [serializable_obs]. *)
Definition serializable_value (v : pyval) : pyval :=
  match v with
  | PArray a => PPlain (tolist a)
  | _ => v
  end.

Definition serializable_obs (obs : observation) : list (string * pyval) :=
  map (fun kv => (kv.1, serializable_value kv.2)) (obs_items obs).

Definition exn := string.

(** [json.dump] of one value: [TypeError] for what it cannot write. *)
Definition json_value (v : pyval) : exn + json :=
  match v with
  | PPlain j => inr j
  | PArray _ => inl "Object of type ndarray is not JSON serializable"
  | PObject t => inl ("Object of type " +:+ t +:+ " is not JSON serializable")
  end.

Fixpoint json_items (items : list (string * pyval))
  : exn + list (string * json) :=
  match items with
  | [] => inr []
  | (k, v) :: rest =>
      match json_value v with
      | inl e => inl e
      | inr j =>
          match json_items rest with
          | inl e => inl e
          | inr js => inr ((k, j) :: js)
          end
      end
  end.

Definition json_dump (items : list (string * pyval)) : exn + json :=
  match json_items items with
  | inl e => inl e
  | inr js => inr (JDict js)
  end.

(** ** The environment boundary *)

(** What the harness calls on the gym environment.  Every call returns the
    environment after the call next to its result. *)
Class Environment (E R : Type) := {
  gym_make : string -> exn + E;                       (* [gym.make(name, ..)] *)
  env_seed : Z -> E -> exn + E;                       (* [env.seed(seed)] *)
  env_reset : E -> (exn + observation) * E;           (* [env.reset()] *)
  env_step : Z -> E -> (exn + observation * R * bool) * E
                                                      (* [env.step(action)] *)
}.

(** The calls made on the environment, in order. *)
Inductive env_call :=
  | CallMake (env_name : string) (returned : bool)
  | CallSeed (seed : Z) (returned : bool)
  | CallReset (returned : bool)
  | CallStep (action : Z) (returned : bool)
  | CallClose.

Definition step_returned (c : env_call) : bool :=
  match c with
  | CallStep _ true => true
  | _ => false
  end.

(** The number of calls of [env.step] that returned. *)
Definition steps_applied (cs : list env_call) : nat :=
  length (List.filter step_returned cs).

Definition is_close (c : env_call) : bool :=
  match c with
  | CallClose => true
  | _ => false
  end.

(** The number of calls of [env.close]. *)
Definition closes (cs : list env_call) : nat :=
  length (List.filter is_close cs).

(** [get_unique_seed]; [now_ms] is [int(time.time() * 1000)]. *)
Definition get_unique_seed (now_ms : Z) (seed : option Z) : Z :=
  match seed with
  | Some s => s
  | None => now_ms mod 10000
  end.

(** [np.random.seed(seed)] (line 209): [ValueError] unless the seed lies in
    0..2^32-1.  [random.seed] (line 208) takes any integer. *)
Definition seed_out_of_range : exn := "Seed must be between 0 and 2**32 - 1".

Definition np_random_seed (seed : Z) : exn + unit :=
  if (0 <=? seed) && (seed <? 2 ^ 32) then inr tt else inl seed_out_of_range.

(** The string between the quotes of [escapechar=...] at line 246, as its
    code points: U+00CB followed by U+02DC. *)
Definition escapechar : list N := [203%N; 732%N].

Definition escapechar_not_one_character : exn :=
  String (ascii_of_nat 34)
    ("escapechar" +:+ String (ascii_of_nat 34) " must be a 1-character string").

(** [csv.writer(csv_file, escapechar=.., quoting=csv.QUOTE_MINIMAL)]: the
    constructor checks the dialect and raises [TypeError] for an escape
    character that is not one character long. *)
Definition csv_writer (escapechar : list N) : exn + unit :=
  match escapechar with
  | [_] => inr tt
  | _ => inl escapechar_not_one_character
  end.

(** ** The episode *)

Section Episode.
Context {R : Type} `{!Number R} {E : Type} `{!Environment E R}.

(** One data row of the trajectory file. *)
Record step_record := {
  rec_step : nat;
  rec_command : string;
  rec_action : Z;
  rec_obs : string;
  rec_reward : R;
  rec_done : bool
}.

(** A row handed to [csv_writer.writerow].  The dialect arguments of
    [csv.writer] (escape character, minimal quoting) only concern how a row
    is spelled in the file; a row is kept as the record of its fields. *)
Inductive csv_row :=
  | HeaderRow (columns : list string)
  | DataRow (r : step_record).

Definition csv_header : csv_row :=
  HeaderRow ["Step"; "Action"; "Action Index"; "Observation"; "Reward"; "Done"].

(** What the operator is shown. *)
Inductive output :=
  | OutMap (ascii_map : string)
  | OutObservation (text : string)
  | OutPrompt (attempt : nat) (max_steps : Z)
  | OutQuitting
  | OutHelp
  | OutActionList
  | OutUsingIndex (action : Z)
  | OutParseError
  | OutUsingAction (command : string) (action : Z)
  | OutUnknown (command : string)
  | OutStepError (e : exn)
  | OutGameOver (episode_return : R).

(** The variables of [run_human_episode] while the loop runs, the files it
    writes and the calls and prints made so far. *)
Record loop_state := {
  env : E;
  obs : observation;
  done : bool;
  step : nat;
  episode_return : R;
  tracker : GameTracker R;
  csv_file : list csv_row;
  debug_files : list (nat * option json);
  calls : list env_call;
  console : list output
}.

Definition say (o : output) (st : loop_state) : loop_state :=
  {| env := env st; obs := obs st; done := done st; step := step st;
     episode_return := episode_return st; tracker := tracker st;
     csv_file := csv_file st; debug_files := debug_files st;
     calls := calls st; console := console st ++ [o] |}.

(** [create_nethack_env(env_name, seed)]: the environment or the exception
    re-raised, with the calls made. *)
Definition create_nethack_env (env_name : string) (seed : Z)
  : (exn + E) * list env_call :=
  match gym_make env_name with
  | inl e => (inl e, [CallMake env_name false])
  | inr env0 =>
      match env_seed seed env0 with
      | inl e => (inl e, [CallMake env_name true; CallSeed seed false])
      | inr env1 => (inr env1, [CallMake env_name true; CallSeed seed true])
      end
  end.

(** [obs_str] of lines 293-301. *)
Definition obs_str_of (next_obs : observation) : string :=
  match tty_chars next_obs with
  | Some g => render g
  | None => obs_repr next_obs
  end.

(** The [try] statement of lines 289-337 for a resolved action. *)
Definition try_step (action_str : string) (action : Z) (st : loop_state)
  : loop_state :=
  match env_step action (env st) with
  | (inl e, env') =>
      {| env := env'; obs := obs st; done := done st; step := step st;
         episode_return := episode_return st; tracker := tracker st;
         csv_file := csv_file st; debug_files := debug_files st;
         calls := calls st ++ [CallStep action false];
         console := console st ++ [OutStepError e] |}
  | (inr (next_obs, reward, done_flag), env') =>
      let row := {| rec_step := step st; rec_command := action_str;
                    rec_action := action; rec_obs := obs_str_of next_obs;
                    rec_reward := reward; rec_done := done_flag |} in
      let step' := (step st + 1)%nat in
      let recorded (snapshot : option json) (shown : list output) :=
        {| env := env'; obs := next_obs; done := done_flag; step := step';
           episode_return := num_add (episode_return st) reward;
           tracker := add_step action_str reward (Some next_obs) (tracker st);
           csv_file := csv_file st ++ [DataRow row];
           debug_files := debug_files st ++ [(step', snapshot)];
           calls := calls st ++ [CallStep action true];
           console := console st ++ shown |} in
      match json_dump (serializable_obs next_obs) with
      | inr j => recorded (Some j) []
      | inl e => recorded None [OutStepError e]
      end
  end.

(** How one pass through the loop body ends. *)
Inductive body_exit :=
  | Break (st : loop_state)
  | Continue (st : loop_state)
  | PressEnter (st : loop_state).  (* [continue] after one more [input()] *)

(** Lines 260-337, from the line read at the prompt. *)
Definition loop_body (line : string) (st : loop_state) : body_exit :=
  let action_str := PyStr.lower (PyStr.strip line) in
  match resolve_action_str NLE_ACTIONS action_str with
  | Quit => Break (say OutQuitting st)
  | Help => PressEnter (say OutHelp st)
  | ActionList => PressEnter (say OutActionList st)
  | UnknownCommand BadActionIndex => Continue (say OutParseError st)
  | UnknownCommand NotInTable => Continue (say (OutUnknown action_str) st)
  | Resolved action =>
      let shown :=
        if PyStr.startswith "action " action_str
        then OutUsingIndex action
        else OutUsingAction action_str action in
      Continue (try_step action_str action (say shown st))
  end.

(** The test of the [while] statement. *)
Definition running (max_steps : Z) (st : loop_state) : bool :=
  negb (done st) && (Z.of_nat (step st) <? max_steps).

(** Lines 254-259: the map (or the raw observation) and the prompt. *)
Definition show_state (max_steps : Z) (st : loop_state) : loop_state :=
  say (OutPrompt (step st + 1) max_steps)
    (say match tty_chars (obs st) with
         | Some g => OutMap (render g)
         | None => OutObservation (obs_repr (obs st))
         end st).

(** What is printed before a line is read: the map or the raw
    observation, then the prompt with the number of the next step. *)
Definition shown_before_input max_steps (st : loop_state) : list output :=
  [match tty_chars (obs st) with
   | Some g => OutMap (render g)
   | None => OutObservation (obs_repr (obs st))
   end;
   OutPrompt (step st + 1) max_steps].

Inductive loop_exit :=
  | ByEnvironment   (* the [while] test failed with [done] set *)
  | ByLimit         (* the [while] test failed on the step count *)
  | ByUser          (* [break] on "quit" *)
  | EndOfInput.     (* [input()] raised [EOFError] *)

(** The [while] loop over the lines typed by the operator. *)
Fixpoint while_loop (max_steps : Z) (stdin : list string) (st : loop_state)
  : loop_exit * loop_state :=
  if running max_steps st then
    let st := show_state max_steps st in
    match stdin with
    | [] => (EndOfInput, st)
    | line :: rest =>
        match loop_body line st with
        | Break st' => (ByUser, st')
        | Continue st' => while_loop max_steps rest st'
        | PressEnter st' =>
            match rest with
            | [] => (EndOfInput, st')
            | _ :: rest' => while_loop max_steps rest' st'
            end
        end
    end
  else (if done st then ByEnvironment else ByLimit, st).

(** The dict written to the summary file and returned. *)
Record episode_log := {
  log_task : string;
  log_seed : Z;
  log_human_player : bool;
  log_steps : nat;
  log_total_reward : R;
  log_mean_reward : R;
  log_actions : gmap string nat;
  log_episode_return : R;
  log_num_steps : nat
}.

Inductive returned :=
  | ErrorRecord (error : exn) (task : string)
  | EpisodeLog (log : episode_log)
  | Raised (e : exn).

(** What a run leaves behind: the value returned (or the exception), the
    way the loop ended, the trajectory file and the summary file if they
    were written, the snapshot files, the calls on the environment and the console. *)
Record run := {
  result : returned;
  ended : option loop_exit;   (* how the loop ended, if it was entered *)
  trajectory : option (list csv_row);
  summary : option episode_log;
  snapshots : list (nat * option json);
  env_calls : list env_call;
  screen : list output
}.

(** Lines 339-341. *)
Definition finish_log (task_name : string) (seed : Z) (st : loop_state)
  : episode_log :=
  let stats := get_stats (tracker st) in
  {| log_task := task_name; log_seed := seed; log_human_player := true;
     log_steps := stat_steps stats;
     log_total_reward := stat_total_reward stats;
     log_mean_reward := stat_mean_reward stats;
     log_actions := stat_actions stats;
     log_episode_return := episode_return st;
     log_num_steps := step st |}.

(** Lines 247-251: the header row has been written and the loop variables
    are set, after [reset] returned [obs0]. *)
Definition start (made : list env_call) (obs0 : observation) (env1 : E)
  : loop_state :=
  {| env := env1; obs := obs0; done := false; step := 0;
     episode_return := num_zero; tracker := new_tracker;
     csv_file := [csv_header]; debug_files := [];
     calls := made ++ [CallReset true]; console := [] |}.

(** Lines 339-351, from the way the loop ended: an [EOFError] raised by
    [input] leaves the function through the [with] statement; otherwise the
    summary is written, the environment is closed and the log returned. *)
Definition end_run (task_name : string) (seed : Z)
    (w : loop_exit * loop_state) : run :=
  match w with
  | (EndOfInput, st) =>
      {| result := Raised "EOFError"; ended := Some EndOfInput;
         trajectory := Some (csv_file st); summary := None;
         snapshots := debug_files st; env_calls := calls st;
         screen := console st |}
  | (how, st) =>
      let log := finish_log task_name seed st in
      {| result := EpisodeLog log; ended := Some how;
         trajectory := Some (csv_file st); summary := Some log;
         snapshots := debug_files st;
         env_calls := calls st ++ [CallClose];
         screen := console st ++ [OutGameOver (episode_return st)] |}
  end.

(** Lines 253-351: the loop from the variables [st], then the end of the
    function. *)
Definition episode_from (task_name : string) (seed : Z) (max_steps : Z)
    (stdin : list string) (st : loop_state) : run :=
  end_run task_name seed (while_loop max_steps stdin st).

(** A run that ends before the loop: nothing was shown, no summary and no
    snapshot was written. *)
Definition stopped (res : returned) (file : option (list csv_row))
    (made : list env_call) : run :=
  {| result := res; ended := None; trajectory := file; summary := None;
     snapshots := []; env_calls := made; screen := [] |}.

Definition run_human_episode (env_name task_name : string) (max_steps : Z)
    (seed : option Z) (now_ms : Z) (stdin : list string) : run :=
  let seed := get_unique_seed now_ms seed in
  match np_random_seed seed with
  | inl e => stopped (Raised e) None []
  | inr _ =>
      match create_nethack_env env_name seed with
      | (inl e, made) => stopped (ErrorRecord e task_name) None made
      | (inr env0, made) =>
          match env_reset env0 with
          | (inl e, _) =>
              stopped (ErrorRecord e task_name) None (made ++ [CallReset false])
          | (inr obs0, env1) =>
              (* [open(csv_filename, "w")] has created the empty file *)
              match csv_writer escapechar with
              | inl e => stopped (Raised e) (Some []) (made ++ [CallReset true])
              | inr _ =>
                  episode_from task_name seed max_steps stdin
                    (start made obs0 env1)
              end
          end
      end
  end.

(** The data rows of a trajectory file. *)
Definition data_rows (rows : list csv_row) : list step_record :=
  omap (fun r => match r with DataRow d => Some d | HeaderRow _ => None end)
       rows.

(** What the loop keeps true of its variables, the trajectory file and
    the calls made: one data row and one returned [env.step] per counted
    step, no [env.close] yet, and the two running totals equal to the sum
    of the rewards in the rows. *)
Definition loop_inv (st : loop_state) : Prop :=
  length (csv_file st) = S (step st)
  /\ head (csv_file st) = Some csv_header
  /\ length (data_rows (csv_file st)) = step st
  /\ steps_applied (calls st) = step st
  /\ closes (calls st) = 0%nat
  /\ episode_return st = py_sum (map rec_reward (data_rows (csv_file st)))
  /\ total_reward (tracker st) = episode_return st
  /\ steps (tracker st) = step st
  /\ tracker_consistent (tracker st).

(** The loop variables and files as lines 228 and 247-251 leave them: the
    header is the only row, nothing is counted yet, and no step or close
    has been called on the environment. *)
Definition at_header (st : loop_state) : Prop :=
  csv_file st = [csv_header]
  /\ debug_files st = []
  /\ done st = false
  /\ step st = 0%nat
  /\ episode_return st = num_zero
  /\ tracker st = new_tracker
  /\ steps_applied (calls st) = 0%nat
  /\ closes (calls st) = 0%nat.

End Episode.

Arguments step_record : clear implicits.
Arguments csv_row : clear implicits.
Arguments output : clear implicits.
Arguments loop_state : clear implicits.
Arguments body_exit : clear implicits.
Arguments episode_log : clear implicits.
Arguments returned : clear implicits.
Arguments run : clear implicits.

(** ** A deterministic stub

    Exact rational rewards and a small scripted environment, used to run the
    definitions above on concrete episodes. *)

Module Stub.

Definition exact : Number QArith_base.Q :=
  {| num_zero := QArith_base.Qmake 0 1;
     num_add := QArith_base.Qplus;
     num_div a n :=
       QArith_base.Qdiv a (QArith_base.inject_Z (Z.of_nat n)) |}.

(** The state of the stub: whether [reset] is broken and how many moves
    were made. *)
Record world := { broken_reset : bool; moves : nat }.

Definition screen (w : world) : char_grid :=
  {| g_rows := 1; g_cols := 2;
     g_data := [x40; if Nat.even (moves w) then x2e else x23] |}.

Definition look (w : world) (extra : list (string * pyval)) : observation :=
  {| items_before :=
       [("blstats", PArray {| nd_shape := [2%nat];
                              nd_data := [Z.of_nat (moves w); 0] |})];
     tty_chars := Some (screen w);
     items_after := extra;
     obs_repr := "{...}" |}.

(** Indices outside 0..22 raise; every move pays one half, the third move
    ends the game, and a kick (20) leaves a bytes object in the
    observation. *)
Definition env : Environment world QArith_base.Q :=
  {| gym_make name :=
       if String.eqb name "NetHackScore-v0"
       then inr {| broken_reset := false; moves := 0 |}
       else if String.eqb name "Unresettable-v0"
       then inr {| broken_reset := true; moves := 0 |}
       else inl "No registered env with id";
     env_seed seed w := inr w;
     env_reset w :=
       if broken_reset w then (inl "reset failed", w)
       else (inr (look w []), w);
     env_step action w :=
       if (action <? 0) || (22 <? action)
       then (inl "invalid action", w)
       else
         let w' := {| broken_reset := broken_reset w;
                      moves := S (moves w) |} in
         (inr (look w' (if action =? 20 then [("misc", PObject "bytes")]
                        else []),
               QArith_base.Qmake 1 2,
               (3 <=? moves w')%nat), w') |}.

Definition fresh : world := {| broken_reset := false; moves := 0 |}.

(** The loop variables of lines 247-251 after a [reset] of the stub. *)
Definition at_start : loop_state QArith_base.Q world :=
  start (Number0 := exact)
    [CallMake "NetHackScore-v0" true; CallSeed 7 true] (look fresh []) fresh.

(** Lines 253-351 on the stub, from the variables [at_start]. *)
Definition replay (max_steps : Z) (stdin : list string) : run QArith_base.Q :=
  episode_from (Number0 := exact) (Environment0 := env)
    "human_play" 7 max_steps stdin at_start.

(** [run_human_episode] on the stub with the seed given as 7. *)
Definition play (env_name : string) (max_steps : Z) (stdin : list string)
  : run QArith_base.Q :=
  run_human_episode (Number0 := exact) (Environment0 := env)
    env_name "human_play" max_steps (Some 7) 0 stdin.

End Stub.

(** ** The help screen and the action list *)

(** The [commands] dict of [show_help], in source order. *)
Definition help_commands : list (string * string) :=
  [ ("north", "move north"); ("east", "move east"); ("south", "move south");
    ("west", "move west"); ("northeast", "move northeast");
    ("southeast", "move southeast"); ("southwest", "move southwest");
    ("northwest", "move northwest"); ("up", "go up a staircase");
    ("down", "go down a staircase");
    ("wait", "rest one move while doing nothing");
    ("search", "search for hidden doors and passages");
    ("inventory", "show your inventory");
    ("pickup", "pick up things at the current location");
    ("kick", "kick an enemy or a locked door or chest");
    ("eat", "eat something"); ("open", "open a door");
    ("close", "close a door"); ("drop", "drop an item");
    ("pray", "pray to the gods"); ("cast", "cast a spell");
    ("wield", "wield a weapon"); ("puton", "put on armor/ring");
    ("remove", "remove armor/ring"); ("throw", "throw an item");
    ("actionlist", "show all NLE action indices");
    ("action <num>", "try a specific action by index");
    ("help", "show this help message"); ("quit", "quit the game") ].

(** The commands of the help screen that the table knows. *)
Definition accepted_help_commands : list string :=
  ["up"; "down"; "wait"; "search"; "kick"; "eat"].

(** [sorted(items, key=lambda x: x[1])]: a stable sort, here by insertion
    of the items from left to right; an item goes behind those with the same
    index. *)
Fixpoint insert_by_index (x : string * Z) (sorted : list (string * Z))
  : list (string * Z) :=
  match sorted with
  | [] => [x]
  | y :: rest =>
      if x.2 <? y.2 then x :: y :: rest else y :: insert_by_index x rest
  end.

Definition sorted_by_index (items : list (string * Z)) : list (string * Z) :=
  fold_left (fun acc x => insert_by_index x acc) items [].

(** The lines "idx: cmd" printed by [show_action_list], as pairs. *)
Definition show_action_list : list (Z * string) :=
  map (fun kv => (kv.2, kv.1)) (sorted_by_index NLE_ACTIONS_items).

(** ** The command-line entry point (lines 373-387) *)

(** What the [try] statement around [run_human_episode] prints last: the
    score line, with [episode_log.get('episode_return', 0)], or the
    traceback of the exception it caught. *)
Inductive main_output (R : Type) :=
  | Completed (score : option R)   (* [None] is the default [0] of [get] *)
  | Traceback (e : exn).

Arguments Completed {R} score.
Arguments Traceback {R} e.

Definition main_report {R} (r : run R) : main_output R :=
  match result r with
  | EpisodeLog log => Completed (Some (log_episode_return log))
  | ErrorRecord _ _ => Completed None
  | Raised e => Traceback e
  end.

(** [main] with the parsed arguments. *)
Definition main {R} `{!Number R} {E} `{!Environment E R}
    (env_name task_name : string) (max_steps : Z) (seed : option Z)
    (now_ms : Z) (stdin : list string) : main_output R :=
  main_report
    (run_human_episode env_name task_name max_steps seed now_ms stdin).

(** ** Counting *)

(** The number of data rows whose Action column is [cmd]. *)
Definition command_count {R} (cmd : string) (rows : list (step_record R))
  : nat :=
  length (List.filter (fun r => String.eqb (rec_command r) cmd) rows).

(** The number of [add_step] calls made with [action]. *)
Definition action_uses {R} (action : string)
    (steps_taken : list (string * R * option observation)) : nat :=
  length (List.filter (fun c => String.eqb c.1.1 action) steps_taken).

(** [d.get(key, 0)] on a dict of counts. *)
Definition count_of (m : gmap string nat) (key : string) : nat :=
  default 0%nat (m !! key).

(** The last observation that was not [None] among the calls. *)
Definition last_given {R}
    (steps_taken : list (string * R * option observation))
  : option observation :=
  fold_left (fun acc c => match c.2 with Some o => Some o | None => acc end)
            steps_taken None.

(** The cells of a grid as the nested lists of [tolist]. *)
Definition grid_json (g : char_grid) : json :=
  JList (map (fun row => JList (map (fun b => JInt (Z.of_N (Byte.to_N b))) row))
             (grid_rows g)).

(** * Properties *)

(** ** Characters and tokens *)

Module PyStrFacts.
Import PyStr.

Ltac each_char c :=
  destruct c as [[] [] [] [] [] [] [] []]; vm_compute.

Lemma int_char_visible c : int_char c = true -> visible c = true.
Proof. each_char c; intros H; solve [reflexivity | discriminate H]. Qed.

Lemma int_char_lower c : int_char c = true -> lower_char c = c.
Proof. each_char c; intros H; solve [reflexivity | discriminate H]. Qed.

(** Lower-casing never makes a character of an [int] literal out of
    another one, and leaves those characters alone. *)
Lemma lower_char_digit c : digit_of (lower_char c) = digit_of c.
Proof. each_char c; reflexivity. Qed.

Lemma lower_char_eqb c x :
  int_char x = true -> Ascii.eqb (lower_char c) x = Ascii.eqb c x.
Proof.
  intros Hx. destruct (int_char (lower_char c)) eqn:Hl.
  - assert (lower_char c = c) as ->; [|done].
    revert Hl. each_char c; intros H; solve [reflexivity | discriminate H].
  - assert (int_char c = false) as Hc.
    { revert Hl. each_char c; intros H; solve [reflexivity | discriminate H]. }
    transitivity false; [|symmetry].
    + apply Ascii.eqb_neq. intros Heq. congruence.
    + apply Ascii.eqb_neq. intros Heq. congruence.
Qed.

Lemma lower_visible c : visible (lower_char c) = visible c.
Proof. each_char c; reflexivity. Qed.

Lemma app_cons c s t : String c s +:+ t = String c (s +:+ t).
Proof. reflexivity. Qed.

Lemma app_nil t : EmptyString +:+ t = t.
Proof. reflexivity. Qed.

Lemma all_chars_impl (P Q : ascii -> bool) s :
  (forall c, P c = true -> Q c = true) ->
  all_chars P s = true -> all_chars Q s = true.
Proof.
  intros HPQ. induction s as [|c r IH]; simpl; [done|].
  rewrite !andb_true_iff. intros [Hc Hr]. auto.
Qed.

Lemma all_chars_app P s t :
  all_chars P (s +:+ t) = all_chars P s && all_chars P t.
Proof.
  induction s as [|c r IH]; rewrite ?app_nil, ?app_cons; simpl; [done|].
  by rewrite IH, andb_assoc.
Qed.

Lemma lower_fixed s : all_chars int_char s = true -> lower s = s.
Proof.
  induction s as [|c r IH]; simpl; [done|].
  rewrite andb_true_iff. intros [Hc Hr].
  by rewrite (int_char_lower c Hc), (IH Hr).
Qed.

Lemma lower_app s t : lower (s +:+ t) = lower s +:+ lower t.
Proof.
  induction s as [|c r IH]; rewrite ?app_nil, ?app_cons; simpl; [done|].
  by rewrite IH, app_cons.
Qed.

Lemma all_visible_lower s : all_chars visible (lower s) = all_chars visible s.
Proof.
  induction s as [|c r IH]; simpl; [done|]. by rewrite lower_visible, IH.
Qed.

Lemma lower_nonempty s : s <> EmptyString -> lower s <> EmptyString.
Proof. by destruct s. Qed.

(** *** strip *)

Lemma rstrip_visible s :
  all_chars visible s = true -> rstrip s = s.
Proof.
  induction s as [|c r IH]; simpl; [done|].
  rewrite andb_true_iff. intros [Hc Hr]. rewrite (IH Hr).
  unfold visible in Hc. apply negb_true_iff in Hc. rewrite Hc.
  by destruct r.
Qed.

Lemma rstrip_app p t :
  t <> EmptyString -> rstrip t = t -> rstrip (p +:+ t) = p +:+ t.
Proof.
  intros Hne Ht. induction p as [|c p IH]; rewrite ?app_nil, ?app_cons; [done|].
  simpl. rewrite IH. destruct (p +:+ t) eqn:Hpt; [|done].
  destruct p; rewrite ?app_nil, ?app_cons in Hpt; [done | discriminate].
Qed.

(** *** split *)

Lemma split_go_visible tok s :
  all_chars visible s = true -> tok +:+ s <> EmptyString ->
  split_go tok s = [tok +:+ s].
Proof.
  revert tok. induction s as [|c r IH]; intros tok Hs Hne; simpl.
  - assert (tok +:+ "" = tok) as Htok.
    { clear. induction tok as [|c t IH]; rewrite ?app_nil, ?app_cons; [done|].
      by rewrite IH. }
    rewrite Htok in *. by destruct tok.
  - simpl in Hs. apply andb_true_iff in Hs as [Hc Hr].
    unfold visible in Hc. apply negb_true_iff in Hc. rewrite Hc.
    assert ((tok +:+ String c "") +:+ r = tok +:+ String c r) as Happ.
    { clear. induction tok as [|d t IH]; rewrite ?app_nil, ?app_cons; [done|].
      by rewrite IH. }
    rewrite IH, Happ; [done..|]. rewrite Happ. by destruct tok.
Qed.

(** The tokens of "action " followed by one visible token. *)
Lemma split_action tok :
  all_chars visible tok = true -> tok <> EmptyString ->
  split ("action " +:+ tok) = ["action"; tok].
Proof.
  intros Hv Hne. unfold split. rewrite !app_cons, app_nil. simpl.
  f_equal. by apply (split_go_visible "" tok).
Qed.

(** *** int *)

Lemma int_digits_chars acc b s n :
  int_digits acc b s = Some n ->
  all_chars int_char s = true /\ (b = false -> s <> EmptyString).
Proof.
  revert acc b. induction s as [|c r IH]; intros acc b; simpl.
  - destruct b; [done|discriminate].
  - destruct (digit_of c) as [d|] eqn:Hd.
    + intros H. apply IH in H as [H _].
      assert (int_char c = true) as Hc by (unfold int_char; by rewrite Hd).
      by rewrite H, Hc.
    + destruct (Ascii.eqb c "_") eqn:Hu; simpl; [|discriminate].
      destruct b; [|discriminate].
      intros H. apply IH in H as [H _].
      assert (int_char c = true) as Hc by (unfold int_char; by rewrite Hd, Hu).
      by rewrite H, Hc.
Qed.

Lemma int_literal_Some s m :
  int_literal s = Some m ->
  int_digits 0 false s = Some m /\ (count_digits s <= int_max_str_digits)%nat.
Proof.
  unfold int_literal.
  destruct (Nat.ltb_spec int_max_str_digits (count_digits s)) as [Hlt|Hle];
    [done|].
  intros Hread. split; [exact Hread | lia].
Qed.

Lemma int_literal_within s :
  (count_digits s <= int_max_str_digits)%nat ->
  int_literal s = int_digits 0 false s.
Proof.
  intros Hle. unfold int_literal.
  destruct (Nat.ltb_spec int_max_str_digits (count_digits s)); [lia|done].
Qed.

Lemma int_literal_over s :
  (int_max_str_digits < count_digits s)%nat -> int_literal s = None.
Proof.
  intros Hlt. unfold int_literal.
  destruct (Nat.ltb_spec int_max_str_digits (count_digits s)); [done|lia].
Qed.

Lemma py_int_head c r :
  py_int (String c r) =
  if Ascii.eqb c "+" then Z.of_N <$> int_literal r
  else if Ascii.eqb c "-" then (fun n => - Z.of_N n) <$> int_literal r
  else Z.of_N <$> int_literal (String c r).
Proof.
  unfold py_int. generalize (int_literal r), (int_literal (String c r)).
  intros o1 o2. each_char c; reflexivity.
Qed.

Lemma py_int_chars tok n :
  py_int tok = Some n ->
  all_chars int_char tok = true /\ tok <> EmptyString.
Proof.
  intros H.
  assert (forall (f : N -> Z) s, f <$> int_literal s = Some n ->
          all_chars int_char s = true /\ s <> EmptyString) as Hdig.
  { intros f s Hs. destruct (int_literal s) as [m|] eqn:Hm; [|done].
    apply int_literal_Some in Hm as [Hm _].
    apply int_digits_chars in Hm as [? ?]. auto. }
  destruct tok as [|c r]; [discriminate|]. rewrite py_int_head in H.
  destruct (Ascii.eqb c "+") eqn:Hplus.
  { apply Ascii.eqb_eq in Hplus as ->. apply Hdig in H as [H _].
    split; [|done]. simpl. by rewrite H. }
  destruct (Ascii.eqb c "-") eqn:Hminus.
  { apply Ascii.eqb_eq in Hminus as ->. apply Hdig in H as [H _].
    split; [|done]. simpl. by rewrite H. }
  by apply Hdig in H.
Qed.

Lemma int_digits_lower acc b s :
  int_digits acc b (lower s) = int_digits acc b s.
Proof.
  revert acc b. induction s as [|c r IH]; intros acc b; simpl; [done|].
  rewrite lower_char_digit, (lower_char_eqb c "_") by done.
  destruct (digit_of c); [apply IH|].
  destruct (Ascii.eqb c "_" && b); [apply IH|done].
Qed.

Lemma count_digits_lower s : count_digits (lower s) = count_digits s.
Proof.
  induction s as [|c r IH]; simpl; [done|].
  by rewrite lower_char_digit, IH.
Qed.

Lemma int_literal_lower s : int_literal (lower s) = int_literal s.
Proof. unfold int_literal. by rewrite count_digits_lower, int_digits_lower. Qed.

(** [lower] does not change what [int] makes of a token. *)
Lemma py_int_lower tok : py_int (lower tok) = py_int tok.
Proof.
  destruct tok as [|c r]; [done|]. simpl lower.
  rewrite !py_int_head, !(lower_char_eqb c) by done.
  change (String (lower_char c) (lower r)) with (lower (String c r)).
  by rewrite !int_literal_lower.
Qed.

(** *** Decimal numerals *)

Lemma digit_of_pretty_char m :
  (m < 10)%N -> digit_of (pretty_N_char m) = Some m.
Proof.
  intros Hm.
  assert (m = 0 \/ m = 1 \/ m = 2 \/ m = 3 \/ m = 4 \/ m = 5 \/ m = 6
          \/ m = 7 \/ m = 8 \/ m = 9)%N as Hcases by lia.
  repeat (destruct Hcases as [-> | Hcases]; [reflexivity|]).
  by subst m.
Qed.

(** The numeral of [x] has [k] digits, where [10^(k-1) <= x < 10^k], and
    reading it shifts the accumulator past them. *)
Lemma int_digits_pretty_go x s :
  (0 < x)%N ->
  exists k : nat,
    (0 < k)%nat
    /\ (10 ^ N.of_nat (k - 1) <= x < 10 ^ N.of_nat k)%N
    /\ (forall acc b,
          int_digits acc b (pretty_N_go x s)
          = int_digits (acc * 10 ^ N.of_nat k + x)%N true s)
    /\ count_digits (pretty_N_go x s) = (k + count_digits s)%nat.
Proof.
  revert s. induction (N.lt_wf_0 x) as [x _ IH]; intros s Hx.
  rewrite pretty_N_go_step by done.
  assert (x `mod` 10 < 10)%N as Hmod by (apply N.mod_lt; lia).
  pose proof (N.div_mod x 10 ltac:(lia)) as Hdm.
  destruct (decide (x `div` 10 = 0)%N) as [Hz | Hnz].
  - rewrite Hz, pretty_N_go_0. exists 1%nat.
    split; [lia|]. split; [simpl; lia|]. split.
    + intros acc b. simpl. rewrite digit_of_pretty_char by done. f_equal.
      change (10 ^ N.of_nat 1)%N with 10%N. lia.
    + simpl. by rewrite digit_of_pretty_char.
  - destruct (IH (x `div` 10)%N) with (s := String (pretty_N_char (x `mod` 10)) s)
      as (k & Hk & [Hlow Hhigh] & Hread & Hcount);
      [apply N.div_lt; lia | lia |].
    assert (10 ^ N.of_nat k = 10 * 10 ^ N.of_nat (k - 1))%N as Hpow.
    { rewrite <-N.pow_succ_r'. f_equal. lia. }
    assert (10 ^ N.of_nat (S k) = 10 * 10 ^ N.of_nat k)%N as Hpow'.
    { rewrite <-N.pow_succ_r'. f_equal. lia. }
    exists (S k). split; [lia|]. split; [|split].
    + replace (S k - 1)%nat with k by lia. rewrite Hpow'.
      revert Hlow Hhigh. rewrite Hpow. clear -Hdm Hmod.
      revert Hdm Hmod.
      generalize (10 ^ N.of_nat (k - 1))%N, (x `div` 10)%N, (x `mod` 10)%N.
      intros a q r -> Hr Hlow Hhigh. lia.
    + intros acc b. rewrite Hread. simpl.
      rewrite digit_of_pretty_char by done. f_equal. rewrite Hpow'.
      clear -Hdm. revert Hdm.
      generalize (10 ^ N.of_nat k)%N, (x `div` 10)%N, (x `mod` 10)%N.
      intros a q r ->. lia.
    + rewrite Hcount. simpl. rewrite digit_of_pretty_char by done. lia.
Qed.

(** A numeral that starts with a digit carries no sign. *)
Lemma py_int_unsigned s m :
  int_digits 0 false s = Some m -> py_int s = Z.of_N <$> int_literal s.
Proof.
  destruct s as [|c r]; [discriminate|]. intros H. rewrite py_int_head.
  destruct (Ascii.eqb c "+") eqn:Hplus.
  { apply Ascii.eqb_eq in Hplus as ->. discriminate H. }
  destruct (Ascii.eqb c "-") eqn:Hminus.
  { apply Ascii.eqb_eq in Hminus as ->. discriminate H. }
  done.
Qed.

(** The numeral of a positive number: what it reads as and how many digits
    it has. *)
Lemma pretty_pos_numeral p :
  exists k : nat,
    (10 ^ N.of_nat (k - 1) <= N.pos p < 10 ^ N.of_nat k)%N
    /\ int_digits 0 false (pretty (N.pos p)) = Some (N.pos p)
    /\ count_digits (pretty (N.pos p)) = k.
Proof.
  unfold pretty, pretty_N. rewrite decide_False by done.
  destruct (int_digits_pretty_go (N.pos p) "") as (k & _ & Hk & Hread & Hcount);
    [lia|].
  exists k. split; [exact Hk|]. split.
  - rewrite Hread. simpl. f_equal.
  - rewrite Hcount. simpl. lia.
Qed.

Lemma int_literal_pretty_pos p (limit : nat) :
  (N.pos p < 10 ^ N.of_nat limit)%N ->
  (count_digits (pretty (N.pos p)) <= limit)%nat.
Proof.
  intros Hlt. destruct (pretty_pos_numeral p) as (k & [Hlow _] & _ & ->).
  assert (N.of_nat (k - 1) < N.of_nat limit)%N as Hk; [|lia].
  apply (N.pow_lt_mono_r_iff 10); lia.
Qed.

(** [int(str(n)) == n] for a numeral within the digit limit. *)
Lemma py_int_str n :
  Z.abs n < 10 ^ Z.of_nat int_max_str_digits ->
  py_int (py_str_int n) = Some n.
Proof.
  intros Hn.
  assert (forall p, Z.pos p < 10 ^ Z.of_nat int_max_str_digits ->
            int_literal (pretty (N.pos p)) = Some (N.pos p)) as Hpos.
  { intros p Hp. rewrite int_literal_within.
    - by destruct (pretty_pos_numeral p) as (k & _ & Hread & _).
    - apply int_literal_pretty_pos. apply N2Z.inj_lt.
      by rewrite N2Z.inj_pow, nat_N_Z. }
  destruct n as [|p|p]; [reflexivity|..].
  - change (py_str_int (Z.pos p)) with (pretty (N.pos p)).
    destruct (pretty_pos_numeral p) as (k & _ & Hread & _).
    by rewrite (py_int_unsigned _ _ Hread), Hpos.
  - change (py_str_int (Z.neg p)) with (String "-" (pretty (N.pos p))).
    rewrite py_int_head. simpl. by rewrite Hpos.
Qed.

(** A numeral with more digits than the limit is rejected. *)
Lemma py_int_str_over n :
  10 ^ Z.of_nat int_max_str_digits <= Z.abs n ->
  py_int (py_str_int n) = None
  /\ all_chars visible (py_str_int n) = true
  /\ py_str_int n <> EmptyString.
Proof.
  intros Hn.
  assert (forall p, 10 ^ Z.of_nat int_max_str_digits <= Z.pos p ->
            int_literal (pretty (N.pos p)) = None
            /\ all_chars int_char (pretty (N.pos p)) = true
            /\ exists m, int_digits 0 false (pretty (N.pos p)) = Some m)
    as Hpos.
  { intros p Hp.
    destruct (pretty_pos_numeral p) as (k & [_ Hhigh] & Hread & Hcount).
    destruct (int_digits_chars _ _ _ _ Hread) as [Hchars _].
    split; [|split; [exact Hchars | by eexists]].
    apply int_literal_over. rewrite Hcount.
    assert (N.of_nat int_max_str_digits < N.of_nat k)%N as Hk; [|lia].
    apply (N.pow_lt_mono_r_iff 10); [lia|].
    eapply N.le_lt_trans; [|exact Hhigh].
    apply N2Z.inj_le. by rewrite N2Z.inj_pow, nat_N_Z. }
  assert (0 < 10 ^ Z.of_nat int_max_str_digits) as Hpow
    by (apply Z.pow_pos_nonneg; lia).
  destruct n as [|p|p]; [simpl in Hn; lia|..].
  - destruct (Hpos p Hn) as (Hnone & Hchars & m & Hread).
    change (py_str_int (Z.pos p)) with (pretty (N.pos p)).
    split; [|split].
    + by rewrite (py_int_unsigned _ _ Hread), Hnone.
    + revert Hchars. apply all_chars_impl, int_char_visible.
    + intros Hempty. by rewrite Hempty in Hread.
  - destruct (Hpos p Hn) as (Hnone & Hchars & m & Hread).
    change (py_str_int (Z.neg p)) with (String "-" (pretty (N.pos p))).
    split; [|split; [|done]].
    + rewrite py_int_head. simpl. by rewrite Hnone.
    + simpl. revert Hchars. apply all_chars_impl, int_char_visible.
Qed.

(** *** The "action ..." branch *)

Lemma strip_action tok :
  all_chars visible tok = true -> tok <> EmptyString ->
  strip ("action " +:+ tok) = "action " +:+ tok.
Proof.
  intros Hv Hne. unfold strip.
  change (lstrip ("action " +:+ tok)) with ("action " +:+ tok).
  apply rstrip_app; [done|]. by apply rstrip_visible.
Qed.

Lemma resolve_action_branch table tok :
  resolve_action_str table ("action " +:+ tok) =
  match split ("action " +:+ tok) !! 1%nat with
  | Some t =>
      match py_int t with
      | Some n => Resolved n
      | None => UnknownCommand BadActionIndex
      end
  | None => UnknownCommand BadActionIndex
  end.
Proof.
  unfold resolve_action_str, startswith.
  assert (String.eqb ("action " +:+ tok) "quit" = false) as -> by reflexivity.
  assert (String.eqb ("action " +:+ tok) "help" = false) as -> by reflexivity.
  assert (String.eqb ("action " +:+ tok) "actionlist" = false) as ->
    by reflexivity.
  assert (String.prefix "action " ("action " +:+ tok) = true) as ->
    by (destruct tok; reflexivity).
  reflexivity.
Qed.

Lemma resolve_action_token table tok :
  all_chars visible tok = true -> tok <> EmptyString ->
  resolve_command table ("action " +:+ tok) =
  match py_int tok with
  | Some n => Resolved n
  | None => UnknownCommand BadActionIndex
  end.
Proof.
  intros Hv Hne. unfold resolve_command.
  rewrite strip_action, lower_app by done.
  change (lower "action ") with "action ".
  rewrite resolve_action_branch, split_action;
    [| by rewrite all_visible_lower | by apply lower_nonempty].
  simpl. by rewrite py_int_lower.
Qed.

End PyStrFacts.

(** ** The command table and the resolver *)

Lemma NLE_ACTIONS_lookup k i :
  NLE_ACTIONS !! k = Some i <-> (k, i) ∈ NLE_ACTIONS_items.
Proof.
  unfold NLE_ACTIONS. symmetry. apply elem_of_list_to_map.
  apply (bool_decide_unpack _). vm_compute. reflexivity.
Qed.

Example resolve_north_key : resolve_command NLE_ACTIONS "  W " = Resolved 1.
Proof. vm_compute. reflexivity. Qed.

Example resolve_action_underscore :
  resolve_command NLE_ACTIONS "Action  1_000 x" = Resolved 1000.
Proof. vm_compute. reflexivity. Qed.

Example resolve_north_word :
  resolve_command NLE_ACTIONS "north" = UnknownCommand NotInTable.
Proof. vm_compute. reflexivity. Qed.

(** Splits a membership in the item list into one goal per item. *)
Ltac each_item H :=
  unfold NLE_ACTIONS_items in H;
  repeat (apply elem_of_cons in H as [H | H]; [inversion H; subst; clear H |]);
  [.. | by apply elem_of_nil in H].

(** C5. Every command name of [NLE_ACTIONS] resolves to the index registered
    for it: a line whose stripped, lower-cased form is the name resolves to
    that index, and so does the name typed as it stands.  No two names share
    an index, so an index determines its name. *)
Theorem NLE_ACTIONS_resolve_exact :
  (forall line k i,
      NLE_ACTIONS !! k = Some i ->
      PyStr.lower (PyStr.strip line) = k ->
      resolve_command NLE_ACTIONS line = Resolved i)
  /\ (forall k i,
      NLE_ACTIONS !! k = Some i ->
      resolve_command NLE_ACTIONS k = Resolved i)
  /\ (forall k1 k2 i,
      NLE_ACTIONS !! k1 = Some i -> NLE_ACTIONS !! k2 = Some i -> k1 = k2).
Proof.
  split; [|split].
  - intros line k i Hk Hline. unfold resolve_command. rewrite Hline. clear Hline.
    apply NLE_ACTIONS_lookup in Hk. each_item Hk; vm_compute; reflexivity.
  - intros k i Hk.
    apply NLE_ACTIONS_lookup in Hk. each_item Hk; vm_compute; reflexivity.
  - intros k1 k2 i H1 H2.
    apply NLE_ACTIONS_lookup in H1, H2.
    each_item H1; each_item H2; reflexivity.
Qed.

Lemma NLE_ACTIONS_resolve_exact_witness :
  resolve_command NLE_ACTIONS "  FarNorth" = Resolved 9
  /\ resolve_command NLE_ACTIONS "search" = Resolved 22
  /\ "q" = "q".
Proof.
  destruct NLE_ACTIONS_resolve_exact as (Hline & Hkey & Hinj).
  split; [|split].
  - apply (Hline "  FarNorth" "farnorth" 9); vm_compute; reflexivity.
  - apply (Hkey "search" 22); vm_compute; reflexivity.
  - apply (Hinj "q" "q" 8); vm_compute; reflexivity.
Defined.

(** C6, as stated, fails: the numeral of [10 ^ 4300] has 4301 digits, [int]
    raises [ValueError] on it, and the line "action <numeral>" is answered
    with the parse error instead of resolving to the integer. *)
Lemma action_numeral_over_digit_limit :
  resolve_command NLE_ACTIONS ("action " +:+ PyStr.py_str_int (10 ^ 4300))
  = UnknownCommand BadActionIndex
  /\ resolve_command NLE_ACTIONS ("action " +:+ PyStr.py_str_int (10 ^ 4300))
     <> Resolved (10 ^ 4300).
Proof.
  destruct (PyStrFacts.py_int_str_over (10 ^ 4300)) as (Hnone & Hchars & Hne).
  { rewrite Z.abs_eq by (apply Z.pow_nonneg; lia). apply Z.le_refl. }
  rewrite PyStrFacts.resolve_action_token, Hnone by done.
  split; [done | discriminate].
Qed.

(** C6 (amended). A line "action <integer>" resolves to that integer
    whatever the table holds, for the decimal numeral of any integer of at most 4300
    digits and, more generally, for any token [int] accepts.  When [int]
    rejects the token, resolution ends in the unknown-command condition and
    yields no index; the numeral of an integer of more than 4300 digits is
    such a token.  "action 17" gives 17 and "action abc" is rejected. *)
Theorem action_escape_hatch :
  (forall table n,
      Z.abs n < 10 ^ 4300 ->
      resolve_command table ("action " +:+ PyStr.py_str_int n) = Resolved n)
  /\ (forall table tok n,
      PyStr.py_int tok = Some n ->
      resolve_command table ("action " +:+ tok) = Resolved n)
  /\ (forall table tok,
      tok <> EmptyString ->
      PyStr.all_chars PyStr.visible tok = true ->
      PyStr.py_int tok = None ->
      resolve_command table ("action " +:+ tok) = UnknownCommand BadActionIndex)
  /\ (forall table n,
      10 ^ 4300 <= Z.abs n ->
      resolve_command table ("action " +:+ PyStr.py_str_int n)
      = UnknownCommand BadActionIndex)
  /\ (forall table, resolve_command table "action 17" = Resolved 17)
  /\ (forall table,
      resolve_command table "action abc" = UnknownCommand BadActionIndex).
Proof.
  assert (forall table tok n,
      PyStr.py_int tok = Some n ->
      resolve_command table ("action " +:+ tok) = Resolved n) as Htok.
  { intros table tok n Hint.
    destruct (PyStrFacts.py_int_chars tok n Hint) as [Hchars Hne].
    rewrite PyStrFacts.resolve_action_token, Hint; [done| |done].
    revert Hchars. apply PyStrFacts.all_chars_impl, PyStrFacts.int_char_visible. }
  split; [|split; [|split; [|split; [|split]]]].
  - intros table n Hn. apply Htok, PyStrFacts.py_int_str. exact Hn.
  - exact Htok.
  - intros table tok Hne Hv Hint.
    by rewrite PyStrFacts.resolve_action_token, Hint.
  - intros table n Hn.
    destruct (PyStrFacts.py_int_str_over n Hn) as (Hnone & Hchars & Hne).
    by rewrite PyStrFacts.resolve_action_token, Hnone.
  - intros table. apply (Htok table "17" 17). reflexivity.
  - intros table.
    change (resolve_command table ("action " +:+ "abc") = UnknownCommand BadActionIndex).
    by rewrite PyStrFacts.resolve_action_token.
Qed.

Lemma action_escape_hatch_witness :
  resolve_command NLE_ACTIONS "action -42" = Resolved (-42)
  /\ resolve_command ∅ "action +1_000" = Resolved 1000
  /\ resolve_command NLE_ACTIONS "action 1.5" = UnknownCommand BadActionIndex
  /\ resolve_command ∅ ("action " +:+ PyStr.py_str_int (- 10 ^ 4300))
     = UnknownCommand BadActionIndex.
Proof.
  destruct action_escape_hatch as (Hnum & Htok & Hbad & Hover & _ & _).
  split; [|split; [|split]].
  - apply (Hnum NLE_ACTIONS (-42)).
    apply Z.lt_le_trans with (10 ^ 2); [reflexivity|].
    apply Z.pow_le_mono_r; lia.
  - apply (Htok ∅ "+1_000" 1000). vm_compute. reflexivity.
  - apply (Hbad NLE_ACTIONS "1.5"); [discriminate | reflexivity | reflexivity].
  - apply (Hover ∅ (- 10 ^ 4300)).
    rewrite Z.abs_opp, Z.abs_eq by (apply Z.pow_nonneg; lia). apply Z.le_refl.
Defined.

(** ** The renderer *)

Section Renderer.
Import PyStrFacts.

Lemma append_assoc (s t u : string) : (s +:+ t) +:+ u = s +:+ (t +:+ u).
Proof.
  induction s as [|c s IH]; rewrite ?app_nil, ?app_cons; [done|].
  by rewrite IH.
Qed.

Lemma append_empty_r (s : string) : s +:+ EmptyString = s.
Proof.
  induction s as [|c s IH]; rewrite ?app_nil, ?app_cons; [done|].
  by rewrite IH.
Qed.

(** The inner loop appends the characters of the row. *)
Lemma render_row_text g i acc :
  render_row g i acc = acc +:+ string_of_list_ascii (map chr (grid_row g i)).
Proof.
  unfold render_row, grid_row. generalize (seq 0 (g_cols g)) as js.
  intros js. revert acc.
  induction js as [|j js IH]; intros acc; simpl.
  - by rewrite append_empty_r.
  - by rewrite IH, append_assoc.
Qed.

Lemma render_rows_text g (rows : list nat) acc :
  fold_left (fun acc i => render_row g i acc +:+ newline) rows acc =
  acc +:+ row_major_text (map (grid_row g) rows).
Proof.
  revert acc. induction rows as [|i rows IH]; intros acc; simpl.
  - by rewrite append_empty_r.
  - by rewrite IH, render_row_text, !append_assoc.
Qed.

Lemma render_row_major g : render g = row_major_text (grid_rows g).
Proof. unfold render, grid_rows. by rewrite render_rows_text. Qed.

Lemma row_major_empty_rows n :
  row_major_text (replicate n []) =
  string_of_list_ascii (replicate n (ascii_of_nat 10)).
Proof. induction n as [|n IH]; simpl; [done|]. by rewrite IH. Qed.

End Renderer.

(** C4, as stated, fails: a grid without columns does not render to the
    empty string when it has rows; each row still ends in a newline. *)
Lemma render_zero_columns_not_empty :
  ~ (forall g : char_grid,
        g_rows g = 0%nat \/ g_cols g = 0%nat -> render g = EmptyString).
Proof.
  intros Hall. specialize (Hall grid_two_empty_rows (or_intror eq_refl)).
  vm_compute in Hall. discriminate Hall.
Qed.

(** C4 (amended). The renderer produces the rows in order, each one the
    characters of its codes followed by a newline.  The two-row grid of the
    codes of "ABCDEF" renders to "ABC\nDEF\n".  A grid with no rows renders
    to the empty string; a grid with [r] rows and no columns renders to [r]
    newlines. *)
Theorem render_row_major_newlines :
  (forall g, render g = row_major_text (grid_rows g))
  /\ render grid_ABCDEF = "ABC" +:+ newline +:+ "DEF" +:+ newline
  /\ (forall g, g_rows g = 0%nat -> render g = EmptyString)
  /\ (forall g, g_cols g = 0%nat ->
        render g = string_of_list_ascii (replicate (g_rows g) (ascii_of_nat 10))).
Proof.
  split; [|split; [|split]].
  - apply render_row_major.
  - vm_compute. reflexivity.
  - intros g Hrows. unfold render. by rewrite Hrows.
  - intros g Hcols. rewrite render_row_major, <-row_major_empty_rows.
    f_equal. unfold grid_rows, grid_row. rewrite Hcols. simpl.
    generalize 0%nat at 1. induction (g_rows g) as [|n IH]; intros k; simpl;
      [done|]. by rewrite IH.
Qed.

Lemma render_row_major_newlines_witness :
  render {| g_rows := 0; g_cols := 80; g_data := [] |} = EmptyString
  /\ render grid_two_empty_rows =
     string_of_list_ascii [ascii_of_nat 10; ascii_of_nat 10].
Proof.
  destruct render_row_major_newlines as (_ & _ & Hrows & Hcols).
  split.
  - apply (Hrows {| g_rows := 0; g_cols := 80; g_data := [] |}). reflexivity.
  - apply (Hcols grid_two_empty_rows). reflexivity.
Defined.

(** ** GameTracker *)

Section TrackerFacts.
Context {R : Type} `{!Number R}.

Lemma py_sum_snoc (xs : list R) (x : R) :
  py_sum (xs ++ [x]) = num_add (py_sum xs) x.
Proof. unfold py_sum. by rewrite fold_left_app. Qed.

(** Counting one more use of [action] raises the total by one. *)
Lemma action_count_total_bump (m : gmap string nat) (action : string) :
  action_count_total
    match m !! action with
    | Some n => <[action := (n + 1)%nat]> m
    | None => <[action := 1%nat]> m
    end = S (action_count_total m).
Proof.
  unfold action_count_total. destruct (m !! action) as [n|] eqn:Hm.
  - rewrite <-insert_delete_eq.
    rewrite map_to_list_insert by apply lookup_delete_eq.
    rewrite <-(map_to_list_delete m action n Hm).
    rewrite !fmap_cons. simpl. lia.
  - rewrite map_to_list_insert by done. by rewrite fmap_cons.
Qed.

Lemma new_tracker_consistent : tracker_consistent new_tracker.
Proof. by repeat split. Qed.

Lemma add_step_consistent action reward o (t : GameTracker R) :
  tracker_consistent t -> tracker_consistent (add_step action reward o t).
Proof.
  intros (Htotal & Hlen & Hcount). split; [|split]; simpl.
  - by rewrite py_sum_snoc, Htotal.
  - rewrite length_app, Hlen. simpl. lia.
  - rewrite action_count_total_bump, <-Hcount. lia.
Qed.

Lemma fold_add_step_consistent steps_taken (t : GameTracker R) :
  tracker_consistent t ->
  tracker_consistent
    (fold_left (fun t c => add_step c.1.1 c.1.2 c.2 t) steps_taken t).
Proof.
  revert t. induction steps_taken as [|c cs IH]; intros t Ht; simpl; [done|].
  by apply IH, add_step_consistent.
Qed.

(** C10. After any sequence of [add_step] calls on a fresh tracker the
    total reward is the sum of the [rewards] list, [steps] is the length of
    that list and the sum of the per-action counts, and [get_stats] reports
    the total divided by [max(1, steps)]: for a tracker without steps the
    divisor is 1, and the mean is zero as soon as zero divided by one is. *)
Theorem tracker_totals steps_taken :
  let t := tracker_after steps_taken in
  total_reward t = py_sum (rewards t)
  /\ steps t = length (rewards t)
  /\ steps t = action_count_total (actions t)
  /\ stat_mean_reward (get_stats t)
     = num_div (total_reward t) (Nat.max 1 (steps t))
  /\ (1 <= Nat.max 1 (steps t))%nat
  /\ stat_mean_reward (get_stats (tracker_after [])) = num_div num_zero 1
  /\ (num_div num_zero 1 = num_zero ->
      stat_mean_reward (get_stats (tracker_after [])) = num_zero).
Proof.
  intros t.
  destruct (fold_add_step_consistent steps_taken new_tracker
              new_tracker_consistent) as (Htotal & Hlen & Hcount).
  repeat split; try done. lia.
Qed.

End TrackerFacts.

Lemma tracker_totals_witness :
  stat_mean_reward
    (get_stats (Number0 := Stub.exact)
       (tracker_after (Number0 := Stub.exact) []))
  = QArith_base.Qmake 0 1.
Proof.
  destruct (@tracker_totals _ Stub.exact [("w", QArith_base.Qmake 1 2, None)])
    as (_ & _ & _ & _ & _ & _ & Hzero).
  apply Hzero. reflexivity.
Defined.

(** ** The loop *)

Section EpisodeFacts.
Context {R : Type} `{!Number R} {E : Type} `{!Environment E R}.
Local Open Scope list_scope.

Lemma data_rows_snoc (rows : list (csv_row R)) (r : step_record R) :
  data_rows (rows ++ [DataRow r]) = data_rows rows ++ [r].
Proof. unfold data_rows. by rewrite omap_app. Qed.

Lemma steps_applied_snoc cs c :
  steps_applied (cs ++ [c])
  = (steps_applied cs + if step_returned c then 1 else 0)%nat.
Proof.
  unfold steps_applied. rewrite List.filter_app, length_app. simpl.
  by destruct (step_returned c).
Qed.

Lemma closes_snoc cs c :
  closes (cs ++ [c]) = (closes cs + if is_close c then 1 else 0)%nat.
Proof.
  unfold closes. rewrite List.filter_app, length_app. simpl.
  by destruct (is_close c).
Qed.

(** *** One pass through the [try] statement *)

Lemma try_step_raise action_str action (st : loop_state R E) e env' :
  env_step action (env st) = (inl e, env') ->
  try_step action_str action st =
  {| env := env'; obs := obs st; done := done st; step := step st;
     episode_return := episode_return st; tracker := tracker st;
     csv_file := csv_file st; debug_files := debug_files st;
     calls := calls st ++ [CallStep action false];
     console := console st ++ [OutStepError e] |}.
Proof. intros Hstep. unfold try_step. by rewrite Hstep. Qed.

Lemma try_step_return action_str action (st : loop_state R E)
    next_obs reward done_flag env' :
  env_step action (env st) = (inr (next_obs, reward, done_flag), env') ->
  let st' := try_step action_str action st in
  csv_file st' = csv_file st ++
    [DataRow {| rec_step := step st; rec_command := action_str;
                rec_action := action; rec_obs := obs_str_of next_obs;
                rec_reward := reward; rec_done := done_flag |}]
  /\ step st' = (step st + 1)%nat
  /\ done st' = done_flag
  /\ obs st' = next_obs
  /\ env st' = env'
  /\ episode_return st' = num_add (episode_return st) reward
  /\ tracker st' = add_step action_str reward (Some next_obs) (tracker st)
  /\ calls st' = calls st ++ [CallStep action true]
  /\ debug_files st' = debug_files st ++
       [((step st + 1)%nat,
         match json_dump (serializable_obs next_obs) with
         | inr j => Some j
         | inl _ => None
         end)].
Proof.
  intros Hstep. unfold try_step. rewrite Hstep.
  by destruct (json_dump (serializable_obs next_obs)).
Qed.

Lemma say_inv o (st : loop_state R E) : loop_inv st -> loop_inv (say o st).
Proof. done. Qed.

Lemma try_step_inv action_str action (st : loop_state R E) :
  loop_inv st -> loop_inv (try_step action_str action st).
Proof.
  intros (Hlen & Hhead & Hrows & Happlied & Hclosed & Hret & Htot & Hsteps & Htr).
  destruct (env_step action (env st)) as [[e | [[next_obs reward] done_flag]] env']
    eqn:Hstep.
  - rewrite (try_step_raise _ _ _ _ _ Hstep). unfold loop_inv. simpl.
    rewrite steps_applied_snoc, closes_snoc. simpl. rewrite !Nat.add_0_r.
    repeat (split; [assumption|]). assumption.
  - destruct (try_step_return action_str action st _ _ _ _ Hstep)
      as (Hcsv & Hst & _ & _ & _ & Hr & Ht & Hc & _).
    unfold loop_inv. rewrite Hcsv, Hst, Hr, Ht, Hc.
    rewrite data_rows_snoc, steps_applied_snoc, closes_snoc, !length_app,
      map_app. simpl. rewrite py_sum_snoc.
    split; [lia|]. split; [by destruct (csv_file st)|].
    split; [lia|]. split; [lia|]. split; [lia|].
    split; [by rewrite Hret|]. split; [by rewrite Htot|].
    split; [lia|]. by apply add_step_consistent.
Qed.

(** *** The [while] loop *)

Lemma while_loop_unfold max_steps stdin (st : loop_state R E) :
  while_loop max_steps stdin st =
  if running max_steps st then
    match stdin with
    | [] => (EndOfInput, show_state max_steps st)
    | line :: rest =>
        match loop_body line (show_state max_steps st) with
        | Break st' => (ByUser, st')
        | Continue st' => while_loop max_steps rest st'
        | PressEnter st' =>
            match rest with
            | [] => (EndOfInput, st')
            | _ :: rest' => while_loop max_steps rest' st'
            end
        end
    end
  else (if done st then ByEnvironment else ByLimit, st).
Proof. by destruct stdin. Qed.

(** Whatever [print] and the [try] statement preserve, the loop preserves. *)
Lemma while_loop_preserves (P : loop_state R E -> Prop) max_steps :
  (forall o st, P st -> P (say o st)) ->
  (forall s a st, P st -> P (try_step s a st)) ->
  forall stdin st, P st -> P (while_loop max_steps stdin st).2.
Proof.
  intros Hsay Htry.
  assert (forall line st, P st ->
            match loop_body line st with
            | Break st' | Continue st' | PressEnter st' => P st'
            end) as Hbody.
  { intros line st HP. unfold loop_body.
    destruct (resolve_action_str _ _) as [ | | | a | []]; auto. }
  assert (forall st, P st -> P (show_state max_steps st)) as Hshow.
  { intros st HP. unfold show_state. auto. }
  assert (forall n stdin st, (length stdin <= n)%nat -> P st ->
            P (while_loop max_steps stdin st).2) as Hn.
  { induction n as [|n IH]; intros stdin st Hlen HP;
      rewrite while_loop_unfold;
      (destruct (running max_steps st); [|done]);
      (destruct stdin as [|line rest]; [by apply Hshow|]);
      simpl in Hlen; [lia|].
    specialize (Hbody line _ (Hshow st HP)).
    destruct (loop_body line (show_state max_steps st)) as [st'|st'|st'];
      [done | apply IH; [lia|done] |].
    destruct rest as [|enter rest']; [done|].
    apply IH; [simpl in Hlen; lia | done]. }
  intros stdin st. by apply (Hn (length stdin)).
Qed.

Lemma while_loop_inv max_steps stdin (st : loop_state R E) :
  loop_inv st -> loop_inv (while_loop max_steps stdin st).2.
Proof.
  apply (while_loop_preserves loop_inv); auto using say_inv, try_step_inv.
Qed.

(** The trajectory file only grows. *)
Lemma while_loop_csv_prefix max_steps stdin (st : loop_state R E) :
  csv_file st `prefix_of` csv_file (while_loop max_steps stdin st).2.
Proof.
  apply (while_loop_preserves (fun st' => csv_file st `prefix_of` csv_file st'));
    [done | | done].
  intros s a st' Hpre.
  destruct (env_step a (env st')) as [[e | [[o r] d]] env'] eqn:Hstep.
  - by rewrite (try_step_raise _ _ _ _ _ Hstep).
  - destruct (try_step_return s a st' _ _ _ _ Hstep) as (-> & _).
    by apply prefix_app_r.
Qed.

(** *** The loop from the header on (lines 247-351) *)

Lemma at_header_inv (st : loop_state R E) : at_header st -> loop_inv st.
Proof.
  intros (Hcsv & _ & _ & Hstep & Hret & Htr & Happlied & Hclosed).
  unfold loop_inv. rewrite Hcsv, Hstep, Hret, Htr, Happlied, Hclosed. simpl.
  repeat (split; [reflexivity|]). apply new_tracker_consistent.
Qed.

Lemma start_at_header made obs0 (env1 : E) :
  steps_applied made = 0%nat -> closes made = 0%nat ->
  at_header (start made obs0 env1).
Proof.
  intros Happlied Hclosed. unfold at_header, start. simpl.
  rewrite steps_applied_snoc, closes_snoc, Happlied, Hclosed. simpl.
  by repeat split.
Qed.

(** What the end of the function makes of the way the loop ended. *)
Lemma episode_from_view task_name seed max_steps stdin (st : loop_state R E) :
  let w := while_loop max_steps stdin st in
  let r := episode_from task_name seed max_steps stdin st in
  ended r = Some w.1
  /\ trajectory r = Some (csv_file w.2)
  /\ snapshots r = debug_files w.2
  /\ (w.1 = EndOfInput ->
      result r = Raised "EOFError" /\ summary r = None
      /\ env_calls r = calls w.2 /\ screen r = console w.2)
  /\ (w.1 <> EndOfInput ->
      result r = EpisodeLog (finish_log task_name seed w.2)
      /\ summary r = Some (finish_log task_name seed w.2)
      /\ env_calls r = calls w.2 ++ [CallClose]
      /\ screen r = console w.2 ++ [OutGameOver (episode_return w.2)])
  /\ (forall log, summary r = Some log ->
      log = finish_log task_name seed w.2 /\ w.1 <> EndOfInput).
Proof.
  unfold episode_from.
  destruct (while_loop max_steps stdin st) as [[] st']; simpl;
    repeat (split; [try done; by intros []|]);
    first [done | by intros log [= <-]].
Qed.

(** *** The whole run *)

Lemma create_nethack_env_calls env_name seed :
  steps_applied (create_nethack_env env_name seed).2 = 0%nat
  /\ closes (create_nethack_env env_name seed).2 = 0%nat.
Proof.
  unfold create_nethack_env. destruct (gym_make env_name) as [e|env0]; [done|].
  by destruct (env_seed seed env0).
Qed.

Lemma np_random_seed_cases seed :
  (0 <= seed < 2 ^ 32 /\ np_random_seed seed = inr tt)
  \/ (~ (0 <= seed < 2 ^ 32) /\ np_random_seed seed = inl seed_out_of_range).
Proof.
  unfold np_random_seed.
  destruct (Z.leb_spec 0 seed), (Z.ltb_spec seed (2 ^ 32)); simpl;
    [left | right | right | right]; (split; [lia | done]).
Qed.

(** The five ways a run goes.  None of them enters the loop: after a
    successful setup [csv.writer] raises on its escape character. *)
Lemma run_outcomes env_name task_name max_steps seed now_ms stdin :
  let r := run_human_episode env_name task_name max_steps seed now_ms stdin in
  let seed' := get_unique_seed now_ms seed in
  (~ (0 <= seed' < 2 ^ 32)
   /\ r = stopped (Raised seed_out_of_range) None [])
  \/ (0 <= seed' < 2 ^ 32
      /\ ((exists e, gym_make env_name = inl e
           /\ r = stopped (ErrorRecord e task_name) None
                    [CallMake env_name false])
          \/ (exists e env0, gym_make env_name = inr env0
              /\ env_seed seed' env0 = inl e
              /\ r = stopped (ErrorRecord e task_name) None
                       [CallMake env_name true; CallSeed seed' false])
          \/ (exists e env0 env1 env2, gym_make env_name = inr env0
              /\ env_seed seed' env0 = inr env1
              /\ env_reset env1 = (inl e, env2)
              /\ r = stopped (ErrorRecord e task_name) None
                       [CallMake env_name true; CallSeed seed' true;
                        CallReset false])
          \/ (exists env0 env1 obs0 env2, gym_make env_name = inr env0
              /\ env_seed seed' env0 = inr env1
              /\ env_reset env1 = (inr obs0, env2)
              /\ r = stopped (Raised escapechar_not_one_character) (Some [])
                       [CallMake env_name true; CallSeed seed' true;
                        CallReset true]))).
Proof.
  intros r seed'. subst r. unfold run_human_episode. fold seed'.
  destruct (np_random_seed_cases seed') as [[Hseed ->] | [Hseed ->]];
    [right; split; [exact Hseed|] | by left].
  unfold create_nethack_env.
  destruct (gym_make env_name) as [e|env0] eqn:Hmake.
  { left. by exists e. }
  destruct (env_seed seed' env0) as [e|env1] eqn:Hseeded.
  { right. left. by exists e, env0. }
  destruct (env_reset env1) as [[e|obs0] env2] eqn:Hreset.
  - right. right. left. by exists e, env0, env1, env2.
  - right. right. right. by exists env0, env1, obs0, env2.
Qed.

(** C3. The claim fails in the code: whenever setup succeeds, [csv.writer]
    raises [TypeError] at line 246, after [open] has created the trajectory
    file and before the header is written.  No step was applied, yet the
    file holds no row, not one, and no summary is persisted.  No run at all
    leaves a row or a summary behind. *)
Theorem trajectory_file_left_empty
    env_name task_name max_steps seed now_ms stdin :
  let r := run_human_episode env_name task_name max_steps seed now_ms stdin in
  let seed' := get_unique_seed now_ms seed in
  (summary r = None
   /\ steps_applied (env_calls r) = 0%nat
   /\ forall rows, trajectory r = Some rows -> rows = [])
  /\ (forall env0 env1 obs0 env2,
        0 <= seed' < 2 ^ 32 ->
        gym_make env_name = inr env0 -> env_seed seed' env0 = inr env1 ->
        env_reset env1 = (inr obs0, env2) ->
        result r = Raised escapechar_not_one_character
        /\ trajectory r = Some []
        /\ steps_applied (env_calls r) = 0%nat
        /\ length (default [] (trajectory r)) <> (0 + 1)%nat
        /\ env_calls r = [CallMake env_name true; CallSeed seed' true;
                          CallReset true]
        /\ ended r = None /\ snapshots r = [] /\ screen r = []).
Proof.
  intros r seed'.
  pose proof (run_outcomes env_name task_name max_steps seed now_ms stdin)
    as Hr. cbv zeta in Hr. fold r seed' in Hr. split.
  - destruct Hr as [[_ ->] | [_ [(e & _ & ->) | [(e & env0 & _ & _ & ->)
      | [(e & env0 & env1 & env2 & _ & _ & _ & ->)
      | (env0 & env1 & obs0 & env2 & _ & _ & _ & ->)]]]]]; simpl;
      (split; [done|]); (split; [done|]); by intros rows [= <-].
  - intros env0 env1 obs0 env2 Hseed Hmake Hseeded Hreset.
    destruct Hr as [[Hbad _] | [_ [(e & He & _) | [(e & env0' & H0 & He & _)
      | [(e & env0' & env1' & env2' & H0 & H1 & He & _)
      | (env0' & env1' & obs0' & env2' & _ & _ & _ & ->)]]]]];
      [done | congruence | congruence | congruence |].
    simpl. by repeat split.
Qed.

(** C1. The claim fails in the code: [env.close] is reached by no run.
    When [env.reset] (or [env.seed]) raises, the error record is returned
    with the environment that [gym.make] built still open; when setup
    succeeds, the [TypeError] of line 246 leaves the function before the
    loop, the summary and [env.close]. *)
Theorem env_close_never_reached
    env_name task_name max_steps seed now_ms stdin :
  let r := run_human_episode env_name task_name max_steps seed now_ms stdin in
  let seed' := get_unique_seed now_ms seed in
  closes (env_calls r) = 0%nat
  /\ (forall e env0 env1 env2,
        0 <= seed' < 2 ^ 32 ->
        gym_make env_name = inr env0 -> env_seed seed' env0 = inr env1 ->
        env_reset env1 = (inl e, env2) ->
        result r = ErrorRecord e task_name
        /\ env_calls r = [CallMake env_name true; CallSeed seed' true;
                          CallReset false])
  /\ (forall e env0,
        0 <= seed' < 2 ^ 32 ->
        gym_make env_name = inr env0 -> env_seed seed' env0 = inl e ->
        result r = ErrorRecord e task_name
        /\ env_calls r = [CallMake env_name true; CallSeed seed' false])
  /\ (forall env0 env1 obs0 env2,
        0 <= seed' < 2 ^ 32 ->
        gym_make env_name = inr env0 -> env_seed seed' env0 = inr env1 ->
        env_reset env1 = (inr obs0, env2) ->
        result r = Raised escapechar_not_one_character
        /\ env_calls r = [CallMake env_name true; CallSeed seed' true;
                          CallReset true]).
Proof.
  intros r seed'.
  pose proof (run_outcomes env_name task_name max_steps seed now_ms stdin)
    as Hr. cbv zeta in Hr. fold r seed' in Hr.
  split; [|split; [|split]].
  - by destruct Hr as [[_ ->] | [_ [(e & _ & ->) | [(e & env0 & _ & _ & ->)
      | [(e & env0 & env1 & env2 & _ & _ & _ & ->)
      | (env0 & env1 & obs0 & env2 & _ & _ & _ & ->)]]]]].
  - intros e env0 env1 env2 Hseed Hmake Hseeded Hreset.
    destruct Hr as [[Hbad _] | [_ [(e' & He & _) | [(e' & env0' & H0 & He & _)
      | [(e' & env0' & env1' & env2' & H0 & H1 & He & ->)
      | (env0' & env1' & obs0' & env2' & H0 & H1 & He & _)]]]]];
      [done | congruence | congruence | | congruence].
    simpl. split; [|done]. f_equal. congruence.
  - intros e env0 Hseed Hmake Hseeded.
    destruct Hr as [[Hbad _] | [_ [(e' & He & _) | [(e' & env0' & H0 & He & ->)
      | [(e' & env0' & env1' & env2' & H0 & H1 & _)
      | (env0' & env1' & obs0' & env2' & H0 & H1 & _)]]]]];
      [done | congruence | | congruence | congruence].
    simpl. split; [|done]. f_equal. congruence.
  - intros env0 env1 obs0 env2 Hseed Hmake Hseeded Hreset.
    destruct Hr as [[Hbad _] | [_ [(e & He & _) | [(e & env0' & H0 & He & _)
      | [(e & env0' & env1' & env2' & H0 & H1 & He & _)
      | (env0' & env1' & obs0' & env2' & _ & _ & _ & ->)]]]]];
      [done | congruence | congruence | congruence |].
    by simpl.
Qed.

(** C8. When the loop is run from the header on and the summary is
    persisted at the end of the function, its [episode_return] is the sum,
    in row order, of the rewards recorded in the data rows of the
    trajectory file; the tracker's [total_reward] is the same number. *)
Theorem episode_return_is_row_sum
    task_name seed max_steps stdin (st : loop_state R E) :
  let r := episode_from task_name seed max_steps stdin st in
  at_header st ->
  forall log rows,
    summary r = Some log -> trajectory r = Some rows ->
    log_episode_return log = py_sum (map rec_reward (data_rows rows))
    /\ log_total_reward log = log_episode_return log.
Proof.
  intros r Hstart log rows Hsum Htr.
  pose proof (episode_from_view task_name seed max_steps stdin st) as Hview.
  cbv zeta in Hview. fold r in Hview.
  destruct Hview as (_ & Htr' & _ & _ & _ & Hlog).
  rewrite Htr' in Htr. injection Htr as <-.
  destruct (Hlog log Hsum) as [-> _].
  destruct (while_loop_inv max_steps stdin st (at_header_inv st Hstart))
    as (_ & _ & _ & _ & _ & Hret & Htot & _).
  simpl. by split.
Qed.

(** *** Attempts that record nothing *)

Lemma show_state_console max_steps (st : loop_state R E) :
  console (show_state max_steps st)
  = console st ++ shown_before_input max_steps st.
Proof. unfold show_state, shown_before_input. simpl. by rewrite <-app_assoc. Qed.

(** C2. If [env.step] raises for the action of an attempt made while the
    loop is running, that attempt appends no row, leaves the step counter,
    the totals and the snapshot files as they were, reports the error, and
    the loop stays in its running state: it goes on with the rest of the
    input and prompts again for the same step number.  The number of data
    rows still equals the number of steps applied before. *)
Theorem step_failure_keeps_running
    max_steps line rest (st : loop_state R E) action e env' :
  running max_steps st = true ->
  resolve_command NLE_ACTIONS line = Resolved action ->
  env_step action (env st) = (inl e, env') ->
  exists st',
    loop_body line (show_state max_steps st) = Continue st'
    /\ csv_file st' = csv_file st
    /\ step st' = step st
    /\ done st' = done st
    /\ episode_return st' = episode_return st
    /\ tracker st' = tracker st
    /\ debug_files st' = debug_files st
    /\ calls st' = calls st ++ [CallStep action false]
    /\ last (console st') = Some (OutStepError e)
    /\ running max_steps st' = true
    /\ while_loop max_steps (line :: rest) st = while_loop max_steps rest st'
    /\ console (show_state max_steps st')
       = console st' ++ shown_before_input max_steps st
    /\ (loop_inv st ->
        length (data_rows (csv_file st')) = steps_applied (calls st')
        /\ length (data_rows (csv_file st')) = step st).
Proof.
  intros Hrun Hres Hstep. unfold resolve_command in Hres.
  eexists. split.
  { unfold loop_body. rewrite Hres.
    rewrite (try_step_raise _ _ _ e env'); [reflexivity | exact Hstep]. }
  repeat (split; [reflexivity|]).
  split; [apply last_snoc|]. split; [exact Hrun|]. split.
  { rewrite while_loop_unfold, Hrun. unfold loop_body. rewrite Hres.
    rewrite (try_step_raise _ _ _ e env'); [reflexivity | exact Hstep]. }
  split; [simpl; by rewrite <-!app_assoc|].
  intros (_ & _ & Hrows & Happlied & _). simpl.
  rewrite steps_applied_snoc. simpl. split; lia.
Qed.

(** C7. A line that, stripped and lower-cased, is no key of the table, no
    meta-command, and no "action ..." whose argument [int] accepts, ends in
    the unknown-command condition: the environment is not called, no row or
    snapshot is written, the counters and totals are unchanged, and the
    loop goes on with the rest of the input, prompting again for the same
    step number. *)
Theorem unknown_command_reprompts
    max_steps line rest (st : loop_state R E) :
  let action_str := PyStr.lower (PyStr.strip line) in
  running max_steps st = true ->
  action_str <> "quit" -> action_str <> "help" ->
  action_str <> "actionlist" ->
  NLE_ACTIONS !! action_str = None ->
  ~ (PyStr.startswith "action " action_str = true
     /\ exists tok n, PyStr.split action_str !! 1%nat = Some tok
                      /\ PyStr.py_int tok = Some n) ->
  exists why st',
    resolve_command NLE_ACTIONS line = UnknownCommand why
    /\ loop_body line (show_state max_steps st) = Continue st'
    /\ env st' = env st
    /\ calls st' = calls st
    /\ csv_file st' = csv_file st
    /\ debug_files st' = debug_files st
    /\ step st' = step st
    /\ done st' = done st
    /\ episode_return st' = episode_return st
    /\ tracker st' = tracker st
    /\ running max_steps st' = true
    /\ while_loop max_steps (line :: rest) st = while_loop max_steps rest st'
    /\ console (show_state max_steps st')
       = console st' ++ shown_before_input max_steps st.
Proof.
  intros action_str Hrun Hquit Hhelp Hlist Htable Haction.
  assert (exists why,
            resolve_action_str NLE_ACTIONS action_str = UnknownCommand why)
    as [why Hwhy].
  { unfold resolve_action_str.
    apply String.eqb_neq in Hquit, Hhelp, Hlist.
    rewrite Hquit, Hhelp, Hlist, Htable.
    destruct (PyStr.startswith "action " action_str); [|eauto].
    destruct (PyStr.split action_str !! 1%nat) as [tok|] eqn:Htok; [|eauto].
    destruct (PyStr.py_int tok) as [n|] eqn:Hint; [|eauto].
    destruct Haction. eauto. }
  exists why.
  assert (exists o, loop_body line (show_state max_steps st)
                    = Continue (say o (show_state max_steps st)))
    as [o Hbody].
  { unfold loop_body. fold action_str. rewrite Hwhy. destruct why; eauto. }
  exists (say o (show_state max_steps st)).
  split; [exact Hwhy|]. split; [exact Hbody|].
  repeat (split; [reflexivity|]).
  split; [exact Hrun|]. split.
  { by rewrite while_loop_unfold, Hrun, Hbody. }
  simpl. by rewrite <-!app_assoc.
Qed.

(** *** The per-step snapshot *)

Lemma json_items_error items e :
  json_items items = inl e ->
  exists k v, (k, v) ∈ items /\ json_value v = inl e.
Proof.
  induction items as [|[k v] items IH]; simpl; [done|].
  destruct (json_value v) as [e'|j] eqn:Hv.
  - intros [= <-]. exists k, v. split; [left | done].
  - destruct (json_items items) as [e'|js]; [|done].
    intros [= <-]. destruct IH as (k' & v' & Hin & Hv'); [done|].
    exists k', v'. split; [by right | done].
Qed.

(** C9. Every array value of the observation is replaced by its nested
    lists before [json.dump] is called, so no array reaches the encoder and
    it can only fail on some other object.  When it fails, the row of that
    step is already in the trajectory file and stays there to the end of
    the loop; the snapshot file of the step is left incomplete. *)
Theorem snapshot_failure_keeps_row :
  (forall o k a,
      (k, PArray a) ∈ obs_items o ->
      (k, PPlain (tolist a)) ∈ serializable_obs o)
  /\ (forall o k v a, (k, v) ∈ serializable_obs o -> v <> PArray a)
  /\ (forall o e,
      json_dump (serializable_obs o) = inl e ->
      exists k t, (k, PObject t) ∈ obs_items o)
  /\ (forall action_str action (st : loop_state R E)
             next_obs reward done_flag env' e max_steps stdin,
      env_step action (env st) = (inr (next_obs, reward, done_flag), env') ->
      json_dump (serializable_obs next_obs) = inl e ->
      let st' := try_step action_str action st in
      let row := DataRow {| rec_step := step st; rec_command := action_str;
                            rec_action := action;
                            rec_obs := obs_str_of next_obs;
                            rec_reward := reward; rec_done := done_flag |} in
      csv_file st' = csv_file st ++ [row]
      /\ step st' = (step st + 1)%nat
      /\ debug_files st' = debug_files st ++ [((step st + 1)%nat, None)]
      /\ row ∈ csv_file (while_loop max_steps stdin st').2).
Proof.
  assert (forall o k v a, (k, v) ∈ serializable_obs o -> v <> PArray a)
    as Hplain.
  { intros o k v a Hin. unfold serializable_obs in Hin.
    apply list_elem_of_fmap in Hin as ([k0 v0] & [= -> ->] & _).
    by destruct v0. }
  split; [|split; [exact Hplain|split]].
  - intros o k a Hin. unfold serializable_obs.
    apply list_elem_of_fmap. by exists (k, PArray a).
  - intros o e Hdump. unfold json_dump in Hdump.
    destruct (json_items (serializable_obs o)) as [e'|js] eqn:Hitems; [|done].
    apply json_items_error in Hitems as (k & v & Hin & Hv).
    pose proof (Hplain o k v) as Hnot.
    unfold serializable_obs in Hin.
    apply list_elem_of_fmap in Hin as ([k0 v0] & [= -> ->] & Hin0).
    destruct v0 as [a|j|t]; simpl in *; [by destruct (Hnot a) | done |].
    by exists k0, t.
  - intros action_str action st next_obs reward done_flag env' e
      max_steps stdin Hstep Hdump st' row.
    destruct (try_step_return action_str action st _ _ _ _ Hstep)
      as (Hcsv & Hst & _ & _ & _ & _ & _ & _ & Hdebug).
    rewrite Hdump in Hdebug. fold st' in Hcsv, Hst, Hdebug.
    repeat (split; [done|]).
    eapply elem_of_prefix; [|apply while_loop_csv_prefix].
    rewrite Hcsv. apply elem_of_app. right. left.
Qed.

End EpisodeFacts.

(** ** Runs of the stub *)

#[local] Existing Instance Stub.exact.
#[local] Existing Instance Stub.env.

Lemma step_failure_keeps_running_witness :
  exists st',
    loop_body (Environment0 := Stub.env) "action 99"
      (show_state 1000 Stub.at_start) = Continue st'
    /\ csv_file st' = csv_file Stub.at_start
    /\ step st' = 0%nat.
Proof.
  destruct (@step_failure_keeps_running _ Stub.exact _ Stub.env
              1000 "action 99" ["quit"] Stub.at_start 99
              "invalid action" Stub.fresh)
    as (st' & Hbody & Hcsv & Hstep & _);
    [reflexivity | vm_compute; reflexivity | reflexivity |].
  exists st'. auto.
Defined.

Lemma unknown_command_reprompts_witness :
  exists why st',
    resolve_command NLE_ACTIONS " North " = UnknownCommand why
    /\ loop_body (Environment0 := Stub.env) " North "
         (show_state 1000 Stub.at_start) = Continue st'
    /\ calls st' = calls Stub.at_start.
Proof.
  destruct (@unknown_command_reprompts _ Stub.exact _ Stub.env
              1000 " North " ["quit"] Stub.at_start)
    as (why & st' & Hwhy & Hbody & _ & Hcalls & _);
    [reflexivity | vm_compute; discriminate | vm_compute; discriminate
     | vm_compute; discriminate | vm_compute; reflexivity
     | intros [Hprefix _]; vm_compute in Hprefix; discriminate Hprefix |].
  exists why, st'. auto.
Defined.

Lemma trajectory_file_left_empty_witness :
  let r := Stub.play "NetHackScore-v0" 1000 ["w"; "action 99"; "kick"; "quit"] in
  result r = Raised escapechar_not_one_character
  /\ trajectory r = Some []
  /\ summary r = None.
Proof.
  intros r.
  destruct (@trajectory_file_left_empty _ Stub.exact _ Stub.env
              "NetHackScore-v0" "human_play" 1000 (Some 7) 0
              ["w"; "action 99"; "kick"; "quit"])
    as [(Hsum & _) Hsetup].
  destruct (Hsetup Stub.fresh Stub.fresh (Stub.look Stub.fresh []) Stub.fresh)
    as (Hres & Htr & _);
    [unfold get_unique_seed; lia | reflexivity | reflexivity | reflexivity |].
  split; [exact Hres|]. split; [exact Htr | exact Hsum].
Defined.

Lemma episode_return_is_row_sum_witness :
  let r := Stub.replay 2 ["w"; "help"; ""; "d"] in
  exists log rows,
    summary r = Some log /\ trajectory r = Some rows
    /\ log_episode_return log
       = py_sum (Number0 := Stub.exact) (map rec_reward (data_rows rows)).
Proof.
  intros r.
  destruct (summary r) as [log|] eqn:Hsum; [|vm_compute in Hsum; discriminate].
  destruct (trajectory r) as [rows|] eqn:Htr; [|vm_compute in Htr; discriminate].
  exists log, rows. split; [done|]. split; [done|].
  apply (@episode_return_is_row_sum _ Stub.exact _ Stub.env
           "human_play" 7 2 ["w"; "help"; ""; "d"] Stub.at_start);
    [unfold at_header; repeat split | exact Hsum | exact Htr].
Defined.

Lemma snapshot_failure_keeps_row_witness :
  (exists row,
      row ∈ csv_file (while_loop (Environment0 := Stub.env) 1000 ["w"; "quit"]
                        (try_step "kick" 20 Stub.at_start)).2
      /\ debug_files (try_step (Environment0 := Stub.env) "kick" 20 Stub.at_start)
         = [(1%nat, None)])
  /\ ("blstats", PPlain (JList [JInt 0; JInt 0]))
     ∈ serializable_obs (Stub.look Stub.fresh []).
Proof.
  destruct (@snapshot_failure_keeps_row _ Stub.exact _ Stub.env)
    as (Harrays & _ & _ & Hrow).
  split.
  - edestruct (Hrow "kick" 20 Stub.at_start) as (_ & _ & Hdebug & Hin);
      [reflexivity | reflexivity |].
    eexists. split; [exact Hin | exact Hdebug].
  - apply (Harrays (Stub.look Stub.fresh []) "blstats"
             {| nd_shape := [2%nat]; nd_data := [0; 0] |}).
    left.
Defined.

Lemma env_close_never_reached_witness :
  let r := Stub.play "Unresettable-v0" 1000 ["w"; "quit"] in
  result r = ErrorRecord "reset failed" "human_play"
  /\ env_calls r
     = [CallMake "Unresettable-v0" true; CallSeed 7 true; CallReset false]
  /\ closes (env_calls r) = 0%nat.
Proof.
  intros r.
  destruct (@env_close_never_reached _ Stub.exact _ Stub.env
              "Unresettable-v0" "human_play" 1000 (Some 7) 0 ["w"; "quit"])
    as (Hclosed & Hreset & _).
  destruct (Hreset "reset failed"
              {| Stub.broken_reset := true; Stub.moves := 0 |}
              {| Stub.broken_reset := true; Stub.moves := 0 |}
              {| Stub.broken_reset := true; Stub.moves := 0 |})
    as [Hres Hcalls];
    [unfold get_unique_seed; lia | reflexivity | reflexivity | reflexivity |].
  split; [exact Hres|]. split; [exact Hcalls | exact Hclosed].
Defined.

(** * Further properties of the harness *)

(** ** The normal form of a typed line *)

Module NormalForm.
Import PyStr PyStrFacts.

Lemma lower_char_idem c : lower_char (lower_char c) = lower_char c.
Proof. each_char c; reflexivity. Qed.

Lemma isspace_lower_char c : isspace (lower_char c) = isspace c.
Proof. each_char c; reflexivity. Qed.

Lemma lower_idem s : lower (lower s) = lower s.
Proof.
  induction s as [|c r IH]; simpl; [done|]. by rewrite lower_char_idem, IH.
Qed.

Lemma lstrip_lower s : lstrip (lower s) = lower (lstrip s).
Proof.
  induction s as [|c r IH]; simpl; [done|].
  rewrite isspace_lower_char. by destruct (isspace c).
Qed.

Lemma rstrip_lower s : rstrip (lower s) = lower (rstrip s).
Proof.
  induction s as [|c r IH]; simpl; [done|].
  rewrite IH, isspace_lower_char.
  destruct (rstrip r); simpl; [by destruct (isspace c) | done].
Qed.

Lemma strip_lower s : strip (lower s) = lower (strip s).
Proof. unfold strip. by rewrite lstrip_lower, rstrip_lower. Qed.

Lemma lstrip_head_visible s : head_visible (lstrip s).
Proof.
  induction s as [|c r IH]; simpl; [done|].
  by destruct (isspace c) eqn:Hc.
Qed.

Lemma lstrip_fixed s : head_visible s -> lstrip s = s.
Proof. destruct s as [|c r]; simpl; [done|]. by intros ->. Qed.

Lemma rstrip_head_visible s : head_visible s -> head_visible (rstrip s).
Proof.
  destruct s as [|c r]; simpl; [done|]. intros Hc.
  destruct (rstrip r); simpl; [by rewrite Hc | done].
Qed.

Lemma rstrip_idem s : rstrip (rstrip s) = rstrip s.
Proof.
  induction s as [|c r IH]; simpl; [done|].
  destruct (rstrip r) as [|a r'] eqn:Hr.
  - destruct (isspace c) eqn:Hc; simpl; [done|]. by rewrite Hc.
  - change (rstrip (String c (String a r'))) with
      match rstrip (String a r') with
      | EmptyString => if isspace c then EmptyString else String c EmptyString
      | r'' => String c r''
      end.
    by rewrite IH.
Qed.

Lemma strip_idem s : strip (strip s) = strip s.
Proof.
  unfold strip.
  rewrite (lstrip_fixed (rstrip (lstrip s)))
    by apply rstrip_head_visible, lstrip_head_visible.
  apply rstrip_idem.
Qed.

Lemma normal_form_idem line :
  lower (strip (lower (strip line))) = lower (strip line).
Proof. by rewrite strip_lower, strip_idem, lower_idem. Qed.

End NormalForm.

Lemma resolve_command_normal_form_aux (table : gmap string Z) (line : string) :
  PyStr.lower (PyStr.strip (PyStr.lower (PyStr.strip line)))
  = PyStr.lower (PyStr.strip line)
  /\ resolve_command table (PyStr.lower (PyStr.strip line))
     = resolve_command table line.
Proof.
  unfold resolve_command. split; [apply NormalForm.normal_form_idem|].
  by rewrite NormalForm.normal_form_idem.
Qed.

(** X19. Resolution looks at the stripped, lower-cased line only, and that
    form is stable: resolving the normal form of a line gives what the line
    itself gives, and two lines with the same normal form resolve alike. *)
Theorem resolve_command_normal_form (table : gmap string Z) (line : string) :
  PyStr.lower (PyStr.strip (PyStr.lower (PyStr.strip line)))
  = PyStr.lower (PyStr.strip line)
  /\ resolve_command table (PyStr.lower (PyStr.strip line))
     = resolve_command table line
  /\ resolve_command table (PyStr.strip line) = resolve_command table line
  /\ resolve_command table (PyStr.lower line) = resolve_command table line.
Proof.
  unfold resolve_command. split; [apply NormalForm.normal_form_idem|].
  split; [by rewrite NormalForm.normal_form_idem|].
  split; [by rewrite NormalForm.strip_idem|].
  by rewrite NormalForm.strip_lower, NormalForm.lower_idem.
Qed.

(** ** The action list and the help screen *)

Ltac decide_by_computation :=
  apply (bool_decide_unpack _); vm_compute; reflexivity.

(** X5. [show_action_list] prints one line per table entry, in increasing
    index order, and the indices are 0 to 22 without a gap.  Every line is
    truthful: the command it names and "action <idx>" both resolve to the
    index it shows. *)
Theorem show_action_list_truthful :
  map fst show_action_list = map Z.of_nat (seq 0 23)
  /\ (forall idx cmd,
        (idx, cmd) ∈ show_action_list <-> NLE_ACTIONS !! cmd = Some idx)
  /\ (forall idx cmd,
        (idx, cmd) ∈ show_action_list ->
        resolve_command NLE_ACTIONS cmd = Resolved idx
        /\ resolve_command NLE_ACTIONS ("action " +:+ PyStr.py_str_int idx)
           = Resolved idx).
Proof.
  assert (show_action_list = map (fun kv => (kv.2, kv.1)) NLE_ACTIONS_items)
    as Hlist by (vm_compute; reflexivity).
  assert (forall idx cmd,
            (idx, cmd) ∈ show_action_list <-> NLE_ACTIONS !! cmd = Some idx)
    as Hmem.
  { intros idx cmd. rewrite Hlist, NLE_ACTIONS_lookup, list_elem_of_fmap.
    split.
    - intros ([k i] & [= -> ->] & Hin). exact Hin.
    - intros Hin. by exists (cmd, idx). }
  split; [vm_compute; reflexivity|]. split; [exact Hmem|].
  intros idx cmd Hin. apply Hmem, NLE_ACTIONS_lookup in Hin.
  split; each_item Hin; vm_compute; reflexivity.
Qed.

Lemma show_action_list_truthful_witness :
  resolve_command NLE_ACTIONS "kick" = Resolved 20
  /\ resolve_command NLE_ACTIONS "action 20" = Resolved 20
  /\ NLE_ACTIONS !! "kick" = Some 20.
Proof.
  destruct show_action_list_truthful as (_ & Hmem & Htrue).
  assert ((20, "kick") ∈ show_action_list) as Hin by decide_by_computation.
  destruct (Htrue 20 "kick" Hin) as [Hcmd Hidx].
  split; [exact Hcmd|]. split; [exact Hidx|]. by apply Hmem.
Defined.

(** X6. Of the commands listed by [show_help], the resolver accepts exactly
    six as game actions; "quit", "help" and "actionlist" are the
    meta-commands; every other listed command, the eight compass words and
    "action <num>" as printed among them, is rejected as unknown. *)
Theorem help_commands_resolution (cmd desc : string) :
  (cmd, desc) ∈ help_commands ->
  match resolve_command NLE_ACTIONS cmd with
  | Resolved _ => cmd ∈ accepted_help_commands
  | Quit => cmd = "quit"
  | Help => cmd = "help"
  | ActionList => cmd = "actionlist"
  | UnknownCommand _ =>
      (cmd ∉ accepted_help_commands) /\ (cmd ∉ ["quit"; "help"; "actionlist"])
  end.
Proof.
  intros Hin. unfold help_commands in Hin.
  repeat (apply elem_of_cons in Hin as [Hin | Hin];
          [inversion Hin; subst; clear Hin;
           match goal with
           | |- context [resolve_command NLE_ACTIONS ?c] =>
               let r := eval vm_compute in (resolve_command NLE_ACTIONS c) in
               replace (resolve_command NLE_ACTIONS c) with r
                 by (vm_compute; reflexivity)
           end;
           first [reflexivity | decide_by_computation
                 | split; decide_by_computation] |]).
  by apply elem_of_nil in Hin.
Qed.

Lemma help_commands_resolution_witness :
  ("north" ∉ accepted_help_commands)
  /\ ("north" ∉ ["quit"; "help"; "actionlist"]).
Proof.
  apply (help_commands_resolution "north" "move north").
  decide_by_computation.
Defined.

(** ** The rendered text *)

Section RenderedText.
Import PyStrFacts.

Lemma length_append (s t : string) :
  String.length (s +:+ t) = (String.length s + String.length t)%nat.
Proof.
  induction s as [|c s IH]; rewrite ?app_nil, ?app_cons; simpl; [done|].
  by rewrite IH.
Qed.

Lemma length_string_of_list (l : list ascii) :
  String.length (string_of_list_ascii l) = length l.
Proof. induction l as [|c l IH]; simpl; [done|]. by rewrite IH. Qed.

Lemma get_append_l n (s t : string) :
  (n < String.length s)%nat -> String.get n (s +:+ t) = String.get n s.
Proof.
  revert n. induction s as [|c s IH]; intros n Hn; simpl in Hn; [lia|].
  rewrite app_cons. destruct n as [|n]; simpl; [done|]. apply IH. lia.
Qed.

Lemma get_append_r n (s t : string) :
  String.get (String.length s + n) (s +:+ t) = String.get n t.
Proof. induction s as [|c s IH]; rewrite ?app_nil, ?app_cons; simpl; done. Qed.

Lemma get_string_of_list n (l : list ascii) :
  String.get n (string_of_list_ascii l) = l !! n.
Proof.
  revert n. induction l as [|c l IH]; intros [|n]; simpl; first [done | apply IH].
Qed.

Lemma row_major_length (rows : list (list byte)) c :
  Forall (fun row => length row = c) rows ->
  String.length (row_major_text rows) = (length rows * (c + 1))%nat.
Proof.
  induction 1 as [|row rows Hrow _ IH]; simpl; [done|].
  rewrite !length_append, length_string_of_list, length_fmap, Hrow, IH.
  simpl. lia.
Qed.

(** The character at column [j] of line [i], and the end of line [i]. *)
Lemma row_major_get (rows : list (list byte)) c i row :
  Forall (fun row => length row = c) rows ->
  rows !! i = Some row ->
  (forall j, (j < c)%nat ->
     String.get (i * (c + 1) + j) (row_major_text rows) = chr <$> row !! j)
  /\ String.get (i * (c + 1) + c) (row_major_text rows)
     = Some (ascii_of_nat 10).
Proof.
  intros Hall. revert i. induction Hall as [|row0 rows Hrow0 _ IH];
    intros i Hi; [done|].
  assert (String.length (string_of_list_ascii (map chr row0)) = c) as Hlen
    by (by rewrite length_string_of_list, length_fmap).
  destruct i as [|i]; simpl in Hi |- *.
  - injection Hi as ->. split.
    + intros j Hj. rewrite get_append_l by lia.
      by rewrite get_string_of_list, list_lookup_fmap.
    + rewrite <-(Nat.add_0_r c) at 1. rewrite <-Hlen at 1.
      by rewrite get_append_r.
  - destruct (IH i Hi) as [Hcell Hend].
    assert (forall k, String.get (c + 1 + k)
              (string_of_list_ascii (map chr row0) +:+ newline
               +:+ row_major_text rows)
            = String.get k (row_major_text rows)) as Hskip.
    { intros k. rewrite <-Hlen at 1. rewrite <-Nat.add_assoc, get_append_r.
      reflexivity. }
    split.
    + intros j Hj. rewrite <-Nat.add_assoc, Hskip. by apply Hcell.
    + by rewrite <-Nat.add_assoc, Hskip.
Qed.

Lemma grid_rows_shape g :
  Forall (fun row => length row = g_cols g) (grid_rows g)
  /\ length (grid_rows g) = g_rows g.
Proof.
  unfold grid_rows, grid_row. split.
  - apply Forall_fmap, Forall_forall. intros i _. simpl.
    by rewrite length_fmap, length_seq.
  - by rewrite length_fmap, length_seq.
Qed.

End RenderedText.

(** X3. The rendered text has one line of [cols] characters and a newline
    for each of the [rows] rows: its length is [rows * (cols + 1)]. *)
Theorem render_length (g : char_grid) :
  String.length (render g) = (g_rows g * (g_cols g + 1))%nat.
Proof.
  destruct (grid_rows_shape g) as [Hall Hlen].
  by rewrite render_row_major, (row_major_length _ _ Hall), Hlen.
Qed.

(** X4. The rendered text can be read back cell by cell: the character at
    position [j] of line [i] is the character of the grid's cell [(i, j)],
    and line [i] ends in a newline right after its [cols] characters. *)
Theorem render_get (g : char_grid) (i j : nat) :
  (i < g_rows g)%nat ->
  (j < g_cols g ->
   String.get (i * (g_cols g + 1) + j) (render g) = Some (chr (cell g i j)))%nat
  /\ String.get (i * (g_cols g + 1) + g_cols g) (render g)
     = Some (ascii_of_nat 10).
Proof.
  intros Hi. destruct (grid_rows_shape g) as [Hall _].
  assert (grid_rows g !! i = Some (grid_row g i)) as Hrow.
  { unfold grid_rows. by rewrite list_lookup_fmap, lookup_seq_lt. }
  destruct (row_major_get _ _ _ _ Hall Hrow) as [Hcell Hend].
  rewrite render_row_major. split; [|exact Hend].
  intros Hj. rewrite (Hcell j Hj). unfold grid_row.
  by rewrite list_lookup_fmap, lookup_seq_lt.
Qed.

Lemma render_get_witness :
  String.get 5 (render grid_ABCDEF) = Some "E"%char
  /\ String.get 7 (render grid_ABCDEF) = Some (ascii_of_nat 10).
Proof.
  destruct (render_get grid_ABCDEF 1 1) as [Hcell Hend]; [simpl; lia|].
  split; [apply Hcell; simpl; lia | exact Hend].
Defined.

(** ** GameTracker: what the calls leave behind *)

Section TrackerHistory.
Context {R : Type} `{!Number R}.
Local Open Scope list_scope.

Lemma count_of_add_step action reward o (t : GameTracker R) key :
  count_of (actions (add_step action reward o t)) key
  = (count_of (actions t) key + if String.eqb action key then 1 else 0)%nat.
Proof.
  unfold count_of. simpl.
  destruct (String.eqb_spec action key) as [->|Hne].
  - destruct (actions t !! key) as [n|] eqn:Hn;
      by rewrite lookup_insert_eq, ?Hn.
  - destruct (actions t !! action) as [n|];
      rewrite lookup_insert_ne by done; lia.
Qed.

Lemma positive_add_step action reward o (t : GameTracker R) :
  (forall key n, actions t !! key = Some n -> (0 < n)%nat) ->
  forall key n,
    actions (add_step action reward o t) !! key = Some n -> (0 < n)%nat.
Proof.
  intros Hpos key n. simpl.
  destruct (decide (action = key)) as [->|Hne].
  - destruct (actions t !! key) as [m|];
      rewrite lookup_insert_eq; intros [= <-]; lia.
  - destruct (actions t !! action) as [m|];
      rewrite lookup_insert_ne by done; apply Hpos.
Qed.

Lemma fold_add_step_history steps_taken (t : GameTracker R) :
  let t' := fold_left (fun t c => add_step c.1.1 c.1.2 c.2 t) steps_taken t in
  rewards t' = rewards t ++ map (fun c => c.1.2) steps_taken
  /\ steps t' = (steps t + length steps_taken)%nat
  /\ last_observation t'
     = fold_left (fun acc c => match c.2 with Some o => Some o | None => acc end)
                 steps_taken (last_observation t)
  /\ (forall key, count_of (actions t') key
                  = (count_of (actions t) key + action_uses key steps_taken)%nat)
  /\ ((forall key n, actions t !! key = Some n -> (0 < n)%nat) ->
      forall key n, actions t' !! key = Some n -> (0 < n)%nat).
Proof.
  revert t. induction steps_taken as [|c cs IH]; intros t; simpl.
  - rewrite app_nil_r. unfold action_uses. simpl.
    repeat split; auto with lia.
  - destruct (IH (add_step c.1.1 c.1.2 c.2 t)) as (Hr & Hs & Ho & Hc & Hp).
    simpl in Hr, Hs, Ho. split; [by rewrite Hr, <-app_assoc|].
    split; [lia|]. split; [by rewrite Ho; destruct c.2|]. split.
    + intros key. rewrite Hc, count_of_add_step. unfold action_uses. simpl.
      destruct (String.eqb c.1.1 key); simpl; lia.
    + intros Hpos. apply Hp. by apply positive_add_step.
Qed.

(** X16. After any sequence of [add_step] calls on a fresh tracker, [rewards]
    is the list of the rewards passed, in call order, [steps] is the number
    of calls, and [last_observation] is the last observation passed that was
    not [None] (and [None] if there was none): a call without an
    observation keeps the previous one. *)
Theorem tracker_history steps_taken :
  let t := tracker_after (R := R) steps_taken in
  rewards t = map (fun c => c.1.2) steps_taken
  /\ steps t = length steps_taken
  /\ last_observation t = last_given steps_taken
  /\ (forall action reward,
        last_observation (add_step action reward None t) = last_observation t).
Proof.
  intros t.
  destruct (fold_add_step_history steps_taken new_tracker)
    as (Hr & Hs & Ho & _).
  repeat split; done.
Qed.

(** X17. The [actions] dict of a tracker counts the calls per action name:
    a name has an entry exactly when it was used, and the entry is the
    number of [add_step] calls made with it. *)
Theorem tracker_action_counts steps_taken (action : string) :
  let t := tracker_after (R := R) steps_taken in
  count_of (actions t) action = action_uses action steps_taken
  /\ (actions t !! action = None <-> action_uses action steps_taken = 0%nat)
  /\ (forall n, actions t !! action = Some n ->
        n = action_uses action steps_taken /\ (0 < n)%nat).
Proof.
  intros t.
  destruct (fold_add_step_history steps_taken new_tracker)
    as (_ & _ & _ & Hc & Hp).
  specialize (Hc action). unfold count_of in Hc. simpl in Hc.
  rewrite lookup_empty in Hc. simpl in Hc.
  assert (forall key n, (∅ : gmap string nat) !! key = Some n -> (0 < n)%nat)
    as Hempty by (intros key n; by rewrite lookup_empty).
  specialize (Hp Hempty action).
  subst t. unfold count_of, tracker_after.
  destruct (actions _ !! action) as [n|]; simpl in Hc.
  - specialize (Hp n eq_refl). split; [done|]. split.
    + split; [done | lia].
    + intros m [= <-]. split; [done | lia].
  - split; [done|]. split; [done|]. intros n [=].
Qed.

End TrackerHistory.

Lemma tracker_action_counts_witness :
  let t := tracker_after (Number0 := Stub.exact)
             [("w", QArith_base.Qmake 1 2, None);
              ("kick", QArith_base.Qmake 0 1, None);
              ("w", QArith_base.Qmake 1 2, None)] in
  actions t !! "w" = Some 2%nat /\ actions t !! "d" = None.
Proof.
  intros t.
  destruct (@tracker_action_counts _ Stub.exact
              [("w", QArith_base.Qmake 1 2, None);
               ("kick", QArith_base.Qmake 0 1, None);
               ("w", QArith_base.Qmake 1 2, None)] "w") as (_ & _ & Hsome).
  destruct (@tracker_action_counts _ Stub.exact
              [("w", QArith_base.Qmake 1 2, None);
               ("kick", QArith_base.Qmake 0 1, None);
               ("w", QArith_base.Qmake 1 2, None)] "d") as (_ & Hnone & _).
  split; [|by apply Hnone].
  fold t in Hsome.
  destruct (actions t !! "w") as [n|] eqn:Hw; [|vm_compute in Hw; discriminate].
  by destruct (Hsome n eq_refl) as [-> _].
Defined.

(** ** The loop, by induction on its passes *)

Section LoopInduction.
Context {R : Type} `{!Number R} {E : Type} `{!Environment E R}.
Local Open Scope list_scope.

(** How one pass through the body ends, by the outcome of resolution. *)
Lemma loop_body_cases line (st : loop_state R E) :
  (resolve_command NLE_ACTIONS line = Quit
   /\ loop_body line st = Break (say OutQuitting st))
  \/ ((resolve_command NLE_ACTIONS line = Help
       \/ resolve_command NLE_ACTIONS line = ActionList)
      /\ exists o, loop_body line st = PressEnter (say o st))
  \/ ((exists why, resolve_command NLE_ACTIONS line = UnknownCommand why)
      /\ exists o, loop_body line st = Continue (say o st))
  \/ (exists action o,
        resolve_command NLE_ACTIONS line = Resolved action
        /\ loop_body line st
           = Continue (try_step (PyStr.lower (PyStr.strip line)) action
                                (say o st))).
Proof.
  unfold loop_body, resolve_command.
  destruct (resolve_action_str _ _) as [ | | | a | []]; eauto 10.
Qed.

(** Induction on the passes of the loop: [P] holds of the variables
    throughout, [Q] relates the way the loop ends to its final state.  The
    [try] statement is only entered while the [while] test holds, with an
    action the typed line resolves to. *)
Lemma while_loop_ind (P : loop_state R E -> Prop)
    (Q : loop_exit -> loop_state R E -> Prop) max_steps :
  (forall o st, P st -> P (say o st)) ->
  (forall line action st,
      P st -> running max_steps st = true ->
      resolve_command NLE_ACTIONS line = Resolved action ->
      P (try_step (PyStr.lower (PyStr.strip line)) action st)) ->
  (forall st, P st -> running max_steps st = false ->
      Q (if done st then ByEnvironment else ByLimit) st) ->
  (forall how st, P st -> running max_steps st = true ->
      how = ByUser \/ how = EndOfInput -> Q how st) ->
  forall stdin st, P st ->
    P (while_loop max_steps stdin st).2
    /\ Q (while_loop max_steps stdin st).1 (while_loop max_steps stdin st).2.
Proof.
  intros Hsay Htry Hstop Hleave.
  assert (forall st, P st -> P (show_state max_steps st)) as Hshow.
  { intros st HP. unfold show_state. auto. }
  assert (forall n stdin st, (length stdin <= n)%nat -> P st ->
            P (while_loop max_steps stdin st).2
            /\ Q (while_loop max_steps stdin st).1
                 (while_loop max_steps stdin st).2) as Hn.
  { assert (forall st, P st -> running max_steps st = true ->
              P (show_state max_steps st)
              /\ Q EndOfInput (show_state max_steps st)) as Hempty.
    { intros st HP Hrun. split; [by apply Hshow|].
      apply Hleave; [by apply Hshow | exact Hrun | by right]. }
    induction n as [|n IH]; intros stdin st Hlen HP;
      rewrite while_loop_unfold;
      destruct (running max_steps st) eqn:Hrun;
      try (split; [exact HP | by apply Hstop]);
      destruct stdin as [|line rest]; try (by apply Hempty);
      simpl in Hlen; [lia|].
    pose proof (Hshow st HP) as HP1.
    assert (running max_steps (show_state max_steps st) = true) as Hrun1
      by exact Hrun.
    destruct (loop_body_cases line (show_state max_steps st))
      as [[_ ->] | [[_ [o ->]] | [[_ [o ->]] | (a & o & Hres & ->)]]].
    - split; [by apply Hsay|].
      apply Hleave; [by apply Hsay | exact Hrun1 | by left].
    - destruct rest as [|enter rest'].
      + split; [by apply Hsay|].
        apply Hleave; [by apply Hsay | exact Hrun1 | by right].
      + apply IH; [simpl in Hlen; lia | by apply Hsay].
    - apply IH; [lia | by apply Hsay].
    - apply IH; [lia|]. apply Htry; [by apply Hsay | exact Hrun1 | exact Hres]. }
  intros stdin st. by apply (Hn (length stdin)).
Qed.

End LoopInduction.

(** ** Runs: the seed, setup failures and what the entry point reports *)

Section RunFacts.
Context {R : Type} `{!Number R} {E : Type} `{!Environment E R}.
Local Open Scope list_scope.

(** Names the five cases of [run_outcomes]. *)
Ltac run_outcome Hr :=
  destruct Hr as [[Hbad Hr] | [Hgood
    [(e0 & Hmake0 & Hr)
    | [(e0 & env00 & Hmake0 & Hseed0 & Hr)
    | [(e0 & env00 & env10 & env20 & Hmake0 & Hseed0 & Hreset0 & Hr)
    | (env00 & env10 & obs00 & env20 & Hmake0 & Hseed0 & Hreset0 & Hr)]]]]].

(** X1. The seed is the one supplied, unchanged, or else a number derived
    from the clock that lies in 0..9999 and that [np.random.seed] accepts.
    [env.seed] is only ever called with that seed, and only when it lies in
    0..2^32-1: for any other seed [np.random.seed] raises [ValueError]
    before any call on the environment.  A summary written at the end of
    the function records the same seed. *)
Theorem seed_recorded env_name task_name max_steps seed now_ms stdin :
  let r := run_human_episode env_name task_name max_steps seed now_ms stdin in
  let seed' := get_unique_seed now_ms seed in
  (forall s, seed = Some s -> seed' = s)
  /\ (seed = None -> 0 <= seed' < 10000 /\ np_random_seed seed' = inr tt)
  /\ (forall s b, CallSeed s b ∈ env_calls r -> s = seed' /\ 0 <= s < 2 ^ 32)
  /\ (~ (0 <= seed' < 2 ^ 32) ->
        result r = Raised seed_out_of_range /\ env_calls r = [])
  /\ (forall (st : loop_state R E) log,
        summary (episode_from task_name seed' max_steps stdin st) = Some log ->
        log_seed log = seed').
Proof.
  intros r seed'.
  pose proof (run_outcomes env_name task_name max_steps seed now_ms stdin)
    as Hr. cbv zeta in Hr. fold r seed' in Hr.
  split; [|split; [|split; [|split]]].
  - by intros s ->.
  - intros ->. subst seed'. simpl.
    assert (0 <= now_ms `mod` 10000 < 10000) as Hmod
      by (apply Z.mod_pos_bound; lia).
    split; [exact Hmod|].
    destruct (np_random_seed_cases (now_ms `mod` 10000))
      as [[_ Hok] | [Hout _]]; [exact Hok | lia].
  - intros s b Hin.
    run_outcome Hr; rewrite Hr in Hin; simpl in Hin;
      repeat (apply elem_of_cons in Hin as [Hin | Hin];
              [try discriminate Hin; injection Hin as -> _; by split|]);
      by apply elem_of_nil in Hin.
  - intros Hout. run_outcome Hr; [by rewrite Hr | done..].
  - intros st log Hsum.
    pose proof (episode_from_view task_name seed' max_steps stdin st) as Hview.
    cbv zeta in Hview. destruct Hview as (_ & _ & _ & _ & _ & Hlog).
    by destruct (Hlog log Hsum) as [-> _].
Qed.

(** X2. When [gym.make], [env.seed] or [env.reset] raises for a seed that
    [np.random.seed] accepted, the run returns an error record carrying the
    text of that exception and the task name, and leaves nothing else
    behind: no trajectory file, no summary, no snapshot, nothing shown, no
    step taken.  An error record is returned in no other case.  For a seed
    outside 0..2^32-1 no error record is returned: [ValueError] leaves the
    function before [gym.make]. *)
Theorem setup_failure_writes_nothing
    env_name task_name max_steps seed now_ms stdin :
  let r := run_human_episode env_name task_name max_steps seed now_ms stdin in
  let seed' := get_unique_seed now_ms seed in
  (forall e task, result r = ErrorRecord e task ->
     task = task_name
     /\ trajectory r = None /\ summary r = None /\ snapshots r = []
     /\ screen r = [] /\ steps_applied (env_calls r) = 0%nat
     /\ 0 <= seed' < 2 ^ 32
     /\ (gym_make env_name = inl e
         \/ exists env0, gym_make env_name = inr env0
            /\ (env_seed seed' env0 = inl e
                \/ exists env1, env_seed seed' env0 = inr env1
                   /\ (env_reset env1).1 = inl e)))
  /\ (0 <= seed' < 2 ^ 32 ->
      forall e, gym_make env_name = inl e ->
        result r = ErrorRecord e task_name
        /\ env_calls r = [CallMake env_name false])
  /\ (0 <= seed' < 2 ^ 32 ->
      forall e env0, gym_make env_name = inr env0 ->
        env_seed seed' env0 = inl e ->
        result r = ErrorRecord e task_name
        /\ env_calls r = [CallMake env_name true; CallSeed seed' false])
  /\ (0 <= seed' < 2 ^ 32 ->
      forall e env0 env1 env2, gym_make env_name = inr env0 ->
        env_seed seed' env0 = inr env1 -> env_reset env1 = (inl e, env2) ->
        result r = ErrorRecord e task_name
        /\ env_calls r = [CallMake env_name true; CallSeed seed' true;
                          CallReset false])
  /\ (~ (0 <= seed' < 2 ^ 32) ->
        result r = Raised seed_out_of_range
        /\ trajectory r = None /\ env_calls r = []).
Proof.
  intros r seed'.
  pose proof (run_outcomes env_name task_name max_steps seed now_ms stdin)
    as Hr. cbv zeta in Hr. fold r seed' in Hr.
  split; [|split; [|split; [|split]]].
  - intros e task Hres.
    run_outcome Hr; rewrite Hr in Hres |- *; simpl in Hres |- *;
      try discriminate Hres; injection Hres as <- <-;
      repeat (split; [done|]).
    + by left.
    + right. exists env00. split; [done|]. by left.
    + right. exists env00. split; [done|]. right. exists env10.
      split; [done|]. by rewrite Hreset0.
  - intros Hseed e Hmake.
    run_outcome Hr; rewrite Hr; simpl; first [done | congruence | idtac].
    split; [|done]. f_equal. congruence.
  - intros Hseed e env0 Hmake Hseeded.
    run_outcome Hr; rewrite Hr; simpl; first [done | congruence | idtac].
    split; [|done]. f_equal. congruence.
  - intros Hseed e env0 env1 env2 Hmake Hseeded Hreset.
    run_outcome Hr; rewrite Hr; simpl; first [done | congruence | idtac].
    split; [|done]. f_equal. congruence.
  - intros Hout. run_outcome Hr; [by rewrite Hr | done..].
Qed.

(** X12. At a prompt, "quit" ends the loop at once, whatever input follows;
    "help" and "actionlist" read one more line and drop it unread, whatever
    it says, before the next prompt, and end the run with [EOFError] if
    there is none.  In each case only the console changes. *)
Theorem meta_commands max_steps line (st : loop_state R E) :
  running max_steps st = true ->
  (resolve_command NLE_ACTIONS line = Quit ->
     forall rest,
       while_loop max_steps (line :: rest) st
       = (ByUser, say OutQuitting (show_state max_steps st)))
  /\ (resolve_command NLE_ACTIONS line = Help
      \/ resolve_command NLE_ACTIONS line = ActionList ->
      exists o,
        (forall dropped rest,
           while_loop max_steps (line :: dropped :: rest) st
           = while_loop max_steps rest (say o (show_state max_steps st)))
        /\ while_loop max_steps [line] st
           = (EndOfInput, say o (show_state max_steps st))
        /\ running max_steps (say o (show_state max_steps st)) = true).
Proof.
  intros Hrun.
  destruct (loop_body_cases line (show_state max_steps st))
    as [[Hq Hbody] | [[Hh [o Hbody]] | [[[why Hu] _] | (a & o & Ha & _)]]].
  - split; [|intros [?|?]; congruence].
    intros _ rest. by rewrite while_loop_unfold, Hrun, Hbody.
  - split; [destruct Hh; congruence|]. intros _. exists o.
    split; [|split; [|exact Hrun]].
    + intros dropped rest. by rewrite while_loop_unfold, Hrun, Hbody.
    + by rewrite while_loop_unfold, Hrun, Hbody.
  - split; [|intros [?|?]]; congruence.
  - split; [|intros [?|?]]; congruence.
Qed.

Lemma raised_texts_differ : escapechar_not_one_character <> seed_out_of_range.
Proof. intros Heq. vm_compute in Heq. discriminate Heq. Qed.

(** X18. What the entry point prints last.  It never prints the score of a
    finished episode.  It prints the default score 0 exactly when setup
    failed with an error record.  Otherwise it prints a traceback: of the
    [ValueError] of [np.random.seed] exactly when the seed lies outside
    0..2^32-1, and of the [TypeError] of [csv.writer] whenever the seed is
    accepted and [gym.make], [env.seed] and [env.reset] all return. *)
Theorem main_reports env_name task_name max_steps seed now_ms stdin :
  let r := run_human_episode env_name task_name max_steps seed now_ms stdin in
  let out := main env_name task_name max_steps seed now_ms stdin in
  let seed' := get_unique_seed now_ms seed in
  (forall x, out <> Completed (Some x))
  /\ (out = Completed None <-> exists e, result r = ErrorRecord e task_name)
  /\ (forall e, out = Traceback e ->
        e = seed_out_of_range \/ e = escapechar_not_one_character)
  /\ (out = Traceback seed_out_of_range <-> ~ (0 <= seed' < 2 ^ 32))
  /\ (forall env0 env1 obs0 env2,
        0 <= seed' < 2 ^ 32 ->
        gym_make env_name = inr env0 -> env_seed seed' env0 = inr env1 ->
        env_reset env1 = (inr obs0, env2) ->
        out = Traceback escapechar_not_one_character).
Proof.
  intros r out seed'. subst out. unfold main, main_report. fold r.
  pose proof (run_outcomes env_name task_name max_steps seed now_ms stdin)
    as Hr. cbv zeta in Hr. fold r seed' in Hr.
  pose proof raised_texts_differ as Hdiff.
  split; [|split; [|split; [|split]]].
  - intros x. run_outcome Hr; by rewrite Hr.
  - run_outcome Hr; rewrite Hr; simpl;
      (split; [try done; eauto | try done; by intros [? [=]]]).
  - intros e. run_outcome Hr; rewrite Hr; simpl; intros [=]; subst; auto.
  - run_outcome Hr; rewrite Hr; simpl; split; try done; try congruence.
  - intros env0 env1 obs0 env2 Hseed Hmake Hseeded Hreset.
    run_outcome Hr; rewrite Hr; simpl; first [done | congruence].
Qed.

End RunFacts.

(** ** The loop from the header on: the summary and the ways out *)

Section EpisodeEnd.
Context {R : Type} `{!Number R} {E : Type} `{!Environment E R}.
Local Open Scope list_scope.

(** X15. In a summary persisted at the end of the function, after the loop
    was run from the header on, the tracker's step count is [num_steps],
    [mean_reward] is [episode_return] divided by [max(1, num_steps)], the
    task is the one given and [human_player] is set. *)
Theorem summary_statistics
    task_name seed max_steps stdin (st : loop_state R E) :
  let r := episode_from task_name seed max_steps stdin st in
  at_header st ->
  forall log, summary r = Some log ->
    log_steps log = log_num_steps log
    /\ log_mean_reward log
       = num_div (log_episode_return log) (Nat.max 1 (log_num_steps log))
    /\ log_task log = task_name
    /\ log_human_player log = true
    /\ result r = EpisodeLog log.
Proof.
  intros r Hstart log Hsum.
  pose proof (episode_from_view task_name seed max_steps stdin st) as Hview.
  cbv zeta in Hview. fold r in Hview.
  destruct Hview as (_ & _ & _ & _ & Hfin & Hlog).
  destruct (Hlog log Hsum) as [-> Hhow].
  destruct (Hfin Hhow) as (Hres & _).
  destruct (while_loop_inv max_steps stdin st (at_header_inv st Hstart))
    as (_ & _ & _ & _ & _ & _ & Htot & Hsteps & _).
  simpl. rewrite Htot, Hsteps. by repeat split.
Qed.

(** X10. With a step limit of zero or less the loop body never runs from
    the header on: nothing is printed before the final message, no line of
    input is read, the trajectory file holds the header only, the summary
    reports zero steps and an empty action count, and the environment is
    closed. *)
Theorem no_steps_allowed
    task_name seed max_steps stdin (st : loop_state R E) :
  let r := episode_from task_name seed max_steps stdin st in
  at_header st -> max_steps <= 0 ->
  ended r = Some ByLimit
  /\ trajectory r = Some [csv_header]
  /\ snapshots r = []
  /\ screen r = console st ++ [OutGameOver num_zero]
  /\ env_calls r = calls st ++ [CallClose]
  /\ exists log, summary r = Some log
     /\ log_num_steps log = 0%nat /\ log_actions log = ∅
     /\ log_episode_return log = num_zero
     /\ log_mean_reward log = num_div num_zero 1.
Proof.
  intros r (Hcsv & Hdbg & Hdone & Hstep & Hret & Htrk & _) Hmax. subst r.
  unfold episode_from. rewrite while_loop_unfold.
  assert (running max_steps st = false) as ->.
  { unfold running. rewrite Hdone, Hstep. simpl. apply Z.ltb_ge. lia. }
  rewrite Hdone. simpl. rewrite Hcsv, Hdbg, Hret.
  repeat (split; [reflexivity|]). eexists. split; [reflexivity|].
  simpl. rewrite Hstep, Hret, Htrk. by repeat split.
Qed.

(** X11. The environment is closed exactly when the loop ends other than
    by the end of the input.  When the input ends while the loop is waiting
    for a line, [EOFError] leaves the function: the trajectory file keeps
    what was written, but no summary is written and the environment is not
    closed; with a positive step limit and no input at all, that happens
    after one prompt.  When the loop ends in any other way, the summary is
    written and [env.close] is called once, as the last call. *)
Theorem end_of_input_skips_summary_and_close
    task_name seed max_steps stdin (st : loop_state R E) :
  let r := episode_from task_name seed max_steps stdin st in
  at_header st ->
  (ended r = Some EndOfInput ->
     result r = Raised "EOFError" /\ summary r = None
     /\ closes (env_calls r) = 0%nat
     /\ exists rows, trajectory r = Some rows)
  /\ (forall how, ended r = Some how -> how <> EndOfInput ->
        closes (env_calls r) = 1%nat
        /\ last (env_calls r) = Some CallClose
        /\ exists log, result r = EpisodeLog log /\ summary r = Some log)
  /\ (stdin = [] -> 0 < max_steps ->
        ended r = Some EndOfInput
        /\ trajectory r = Some [csv_header]
        /\ last (screen r) = Some (OutPrompt 1 max_steps)).
Proof.
  intros r Hstart.
  pose proof (episode_from_view task_name seed max_steps stdin st) as Hview.
  cbv zeta in Hview. fold r in Hview.
  destruct Hview as (Hended & Htr & _ & Heof & Hfin & _).
  destruct (while_loop_inv max_steps stdin st (at_header_inv st Hstart))
    as (_ & _ & _ & _ & Hclosed & _).
  split; [|split].
  - rewrite Hended. intros [= Hhow].
    destruct (Heof Hhow) as (Hres & Hsum & Hcalls & _).
    rewrite Hcalls. eauto.
  - rewrite Hended. intros how [= Hhow] Hne. rewrite <-Hhow in Hne.
    destruct (Hfin Hne) as (Hres & Hsum & Hcalls & _).
    rewrite Hcalls, closes_snoc, Hclosed, last_snoc. eauto.
  - intros -> Hmax. subst r. unfold episode_from.
    destruct Hstart as (Hcsv & _ & Hdone & Hstep & _).
    rewrite while_loop_unfold.
    assert (running max_steps st = true) as ->.
    { unfold running. rewrite Hdone, Hstep. simpl. apply Z.ltb_lt. lia. }
    simpl. rewrite Hcsv, Hstep. split; [done|]. split; [done|].
    apply last_snoc.
Qed.

(** X21. From the header on, the trajectory file and the summary follow
    the calls of [env.step] that returned: when there were [N] of them, the
    file holds the header and [N] data rows, and a summary persisted at the
    end of the function has [num_steps = N]. *)
Theorem rows_match_steps_applied
    task_name seed max_steps stdin (st : loop_state R E) (N : nat) :
  let r := episode_from task_name seed max_steps stdin st in
  at_header st ->
  steps_applied (env_calls r) = N ->
  (forall rows, trajectory r = Some rows ->
     length rows = (N + 1)%nat
     /\ head rows = Some csv_header
     /\ length (data_rows rows) = N)
  /\ (forall log, summary r = Some log -> log_num_steps log = N).
Proof.
  intros r Hstart HN.
  pose proof (episode_from_view task_name seed max_steps stdin st) as Hview.
  cbv zeta in Hview. fold r in Hview.
  destruct Hview as (_ & Htr & _ & Heof & Hfin & Hlog).
  destruct (while_loop_inv max_steps stdin st (at_header_inv st Hstart))
    as (Hlen & Hhead & Hrows & Happlied & _).
  assert (step (while_loop max_steps stdin st).2 = N) as Hstep.
  { assert ((while_loop max_steps stdin st).1 = EndOfInput
            \/ (while_loop max_steps stdin st).1 <> EndOfInput)
      as [Hhow | Hhow]
      by (destruct ((while_loop max_steps stdin st).1);
          first [by left | by right]).
    - destruct (Heof Hhow) as (_ & _ & Hcalls & _).
      by rewrite Hcalls, Happlied in HN.
    - destruct (Hfin Hhow) as (_ & _ & Hcalls & _).
      rewrite Hcalls, steps_applied_snoc, Happlied in HN. simpl in HN. lia. }
  split.
  - intros rows Hrows'. rewrite Htr in Hrows'. injection Hrows' as <-.
    split; [lia|]. split; [done | lia].
  - intros log Hsum. by destruct (Hlog log Hsum) as [-> _].
Qed.

End EpisodeEnd.

(** ** The loop from the header on: what the trajectory file looks like *)

Section TrajectoryFacts.
Context {R : Type} `{!Number R} {E : Type} `{!Environment E R}.
Local Open Scope list_scope.

(** X7. From the header on, the data rows of the trajectory file are
    numbered 0, 1, 2, ... in their Step column, in order and without a gap,
    and the snapshot files are numbered 1, 2, 3, ..., one per data row: the
    snapshot of the row with Step [i] is file [i + 1]. *)
Theorem rows_and_snapshots_numbered
    task_name seed max_steps stdin (st : loop_state R E) :
  let r := episode_from task_name seed max_steps stdin st in
  at_header st ->
  forall rows, trajectory r = Some rows ->
    map rec_step (data_rows rows) = seq 0 (length (data_rows rows))
    /\ map fst (snapshots r) = seq 1 (length (data_rows rows)).
Proof.
  intros r Hstart rows Htr.
  pose proof (episode_from_view task_name seed max_steps stdin st) as Hview.
  cbv zeta in Hview. fold r in Hview.
  destruct Hview as (_ & Htr' & Hsnap & _).
  rewrite Htr' in Htr. injection Htr as <-. rewrite Hsnap.
  assert (length (data_rows (csv_file (while_loop max_steps stdin st).2))
            = step (while_loop max_steps stdin st).2
          /\ map rec_step (data_rows (csv_file (while_loop max_steps stdin st).2))
             = seq 0 (step (while_loop max_steps stdin st).2)
          /\ map fst (debug_files (while_loop max_steps stdin st).2)
             = seq 1 (step (while_loop max_steps stdin st).2))
    as (Hlen & Hrows & Hdebug).
  { apply (while_loop_preserves
      (fun st => length (data_rows (csv_file st)) = step st
                 /\ map rec_step (data_rows (csv_file st)) = seq 0 (step st)
                 /\ map fst (debug_files st) = seq 1 (step st))).
    - done.
    - intros s a st' (Hlen & Hrows & Hdebug).
      destruct (env_step a (env st')) as [[e | [[o rw] d]] env'] eqn:Hstep.
      + by rewrite (try_step_raise _ _ _ _ _ Hstep).
      + destruct (try_step_return s a st' _ _ _ _ Hstep)
          as (-> & -> & _ & _ & _ & _ & _ & _ & ->).
        rewrite data_rows_snoc, length_app, !map_app, Hrows, Hdebug, Hlen.
        simpl. rewrite Nat.add_1_r, !seq_S. simpl.
        done.
    - destruct Hstart as (Hcsv & Hdbg & _ & Hstep & _).
      by rewrite Hcsv, Hdbg, Hstep. }
  by rewrite Hlen.
Qed.

(** X8. From the header on, only the last data row of the trajectory file
    can have Done set: the loop does not step an environment that has
    reported the end.  The loop ends by the environment's flag exactly when
    the last row has it. *)
Theorem done_row_is_last
    task_name seed max_steps stdin (st : loop_state R E) :
  let r := episode_from task_name seed max_steps stdin st in
  at_header st ->
  forall rows, trajectory r = Some rows ->
    (forall i row, data_rows rows !! i = Some row -> rec_done row = true ->
       S i = length (data_rows rows))
    /\ (ended r = Some ByEnvironment <->
        exists row, last (data_rows rows) = Some row /\ rec_done row = true).
Proof.
  intros r Hstart rows Htr.
  pose proof (episode_from_view task_name seed max_steps stdin st) as Hview.
  cbv zeta in Hview. fold r in Hview.
  destruct Hview as (Hended & Htr' & _).
  rewrite Htr' in Htr. injection Htr as <-. rewrite Hended.
  set (P := fun st : loop_state R E =>
    (done st = false
     /\ Forall (fun row => rec_done row = false) (data_rows (csv_file st)))
    \/ (done st = true
        /\ exists rows' row, data_rows (csv_file st) = rows' ++ [row]
           /\ Forall (fun row => rec_done row = false) rows'
           /\ rec_done row = true)).
  destruct (while_loop_ind P
              (fun how st => how = ByEnvironment <-> done st = true)
              max_steps) with (stdin := stdin) (st := st) as [HP HQ].
  - done.
  - intros line a st' HPst Hrun _.
    assert (done st' = false) as Hdone.
    { unfold running in Hrun. by destruct (done st'). }
    destruct HPst as [[_ Hall] | [Htrue _]]; [|congruence].
    destruct (env_step a (env st')) as [[e | [[o rw] d]] env'] eqn:Hstep.
    + rewrite (try_step_raise _ _ _ _ _ Hstep). by left.
    + destruct (try_step_return (PyStr.lower (PyStr.strip line)) a st'
                  _ _ _ _ Hstep) as (Hcsv & _ & Hd & _).
      unfold P. rewrite Hcsv, Hd, data_rows_snoc. destruct d.
      * right. split; [done|]. eauto.
      * left. split; [done|]. apply Forall_app. split; [done|].
        by apply Forall_singleton.
  - intros st' _ Hrun. destruct (done st'); split; done.
  - intros how st' _ Hrun Hhow. unfold running in Hrun.
    destruct (done st'); [done|]. split; [|done].
    destruct Hhow; congruence.
  - destruct Hstart as (Hcsv & _ & Hdone & _).
    left. split; [done|]. rewrite Hcsv. simpl. constructor.
  - destruct (while_loop max_steps stdin st) as [how st']. simpl in HP, HQ.
    simpl.
    destruct HP as [[Hdone Hall] | (Hdone & rows' & row & Hrows & Hall & Hrow)].
    + split.
      * intros i row Hi Htrue.
        rewrite (Forall_lookup_1 _ _ _ _ Hall Hi) in Htrue. done.
      * split.
        { intros [= ->]. destruct HQ as [HQ _]. rewrite HQ in Hdone; done. }
        { intros (row & Hlast & Htrue). rewrite last_lookup in Hlast.
          rewrite (Forall_lookup_1 _ _ _ _ Hall Hlast) in Htrue. done. }
    + rewrite Hrows. split.
      * intros i row' Hi Htrue. rewrite length_app. simpl.
        apply lookup_snoc_Some in Hi as [[Hlt Hi] | [-> _]]; [|lia].
        rewrite (Forall_lookup_1 _ _ _ _ Hall Hi) in Htrue. done.
      * split.
        { intros _. exists row. by rewrite last_snoc. }
        { intros _. f_equal. by apply HQ. }
Qed.

(** X9. From the header on, the loop never records more steps than the
    limit allows: the number of data rows is at most [max(0, max_steps)],
    and when the loop ends on the limit the summary's [num_steps] is
    exactly that number. *)
Theorem step_limit_respected
    task_name seed max_steps stdin (st : loop_state R E) :
  let r := episode_from task_name seed max_steps stdin st in
  at_header st ->
  (forall rows, trajectory r = Some rows ->
     Z.of_nat (length (data_rows rows)) <= Z.max 0 max_steps)
  /\ (forall log, summary r = Some log ->
        Z.of_nat (log_num_steps log) <= Z.max 0 max_steps
        /\ (ended r = Some ByLimit ->
            Z.of_nat (log_num_steps log) = Z.max 0 max_steps)).
Proof.
  intros r Hstart.
  pose proof (episode_from_view task_name seed max_steps stdin st) as Hview.
  cbv zeta in Hview. fold r in Hview.
  destruct Hview as (Hended & Htr' & _ & _ & _ & Hlog).
  assert (length (data_rows (csv_file (while_loop max_steps stdin st).2))
          = step (while_loop max_steps stdin st).2
    /\ Z.of_nat (step (while_loop max_steps stdin st).2) <= Z.max 0 max_steps
    /\ ((while_loop max_steps stdin st).1 = ByLimit ->
        Z.of_nat (step (while_loop max_steps stdin st).2) = Z.max 0 max_steps))
    as (Hlen & Hle & Hlimit).
  { destruct (while_loop_ind
      (fun st => loop_inv st /\ Z.of_nat (step st) <= Z.max 0 max_steps)
      (fun how st => how = ByLimit -> Z.max 0 max_steps <= Z.of_nat (step st))
      max_steps) with (stdin := stdin) (st := st)
      as [[Hinv Hle] Hlimit].
    - intros o st' [Hinv Hle]. split; [by apply say_inv | done].
    - intros line a st' [Hinv Hle] Hrun _. split; [by apply try_step_inv|].
      unfold running in Hrun. apply andb_true_iff in Hrun as [_ Hlt].
      apply Z.ltb_lt in Hlt.
      destruct (env_step a (env st')) as [[e | [[o rw] d]] env'] eqn:Hstep.
      + by rewrite (try_step_raise _ _ _ _ _ Hstep).
      + destruct (try_step_return (PyStr.lower (PyStr.strip line)) a st'
                    _ _ _ _ Hstep) as (_ & -> & _). lia.
    - intros st' [_ Hle] Hrun. unfold running in Hrun.
      destruct (done st'); [done|]. simpl in Hrun. intros _.
      apply Z.ltb_ge in Hrun. lia.
    - intros how st' _ _ [-> | ->]; done.
    - split; [by apply at_header_inv|].
      destruct Hstart as (_ & _ & _ & -> & _). lia.
    - destruct Hinv as (_ & _ & Hrows & _).
      split; [done|]. split; [done|]. intros Hby. specialize (Hlimit Hby). lia. }
  split.
  - intros rows Htr. rewrite Htr' in Htr. injection Htr as <-.
    by rewrite Hlen.
  - intros log Hsum. destruct (Hlog log Hsum) as [-> _]. simpl.
    split; [done|]. rewrite Hended. intros [= Hby]. by apply Hlimit.
Qed.

End TrajectoryFacts.

(** ** The loop from the header on: the rows against the table and the
    summary *)

Section RowFacts.
Context {R : Type} `{!Number R} {E : Type} `{!Environment E R}.
Local Open Scope list_scope.

Lemma command_count_snoc cmd (rows : list (step_record R)) row :
  command_count cmd (rows ++ [row])
  = (command_count cmd rows
     + if String.eqb (rec_command row) cmd then 1 else 0)%nat.
Proof.
  unfold command_count. rewrite List.filter_app, length_app. simpl.
  by destruct (String.eqb (rec_command row) cmd).
Qed.

(** X13. From the header on, in every data row the Action column holds a
    command in normal form (stripped and lower-cased) and the Action Index
    column holds what that command resolves to; no row is ever written for
    a meta-command or for a rejected line. *)
Theorem rows_hold_resolved_commands
    task_name seed max_steps stdin (st : loop_state R E) :
  let r := episode_from task_name seed max_steps stdin st in
  at_header st ->
  forall rows row, trajectory r = Some rows -> row ∈ data_rows rows ->
    resolve_command NLE_ACTIONS (rec_command row) = Resolved (rec_action row)
    /\ PyStr.lower (PyStr.strip (rec_command row)) = rec_command row
    /\ (NLE_ACTIONS !! rec_command row = Some (rec_action row)
        \/ PyStr.startswith "action " (rec_command row) = true).
Proof.
  intros r Hstart rows row Htr Hin.
  pose proof (episode_from_view task_name seed max_steps stdin st) as Hview.
  cbv zeta in Hview. fold r in Hview.
  destruct Hview as (_ & Htr' & _).
  rewrite Htr' in Htr. injection Htr as <-.
  set (good := fun row : step_record R =>
    resolve_command NLE_ACTIONS (rec_command row) = Resolved (rec_action row)
    /\ PyStr.lower (PyStr.strip (rec_command row)) = rec_command row).
  assert (Forall good (data_rows (csv_file (while_loop max_steps stdin st).2)))
    as Hall.
  { apply (while_loop_ind (fun st => Forall good (data_rows (csv_file st)))
             (fun _ _ => True) max_steps); try done.
    - intros line a st' Hst _ Hres.
      destruct (env_step a (env st')) as [[e | [[o rw] d]] env'] eqn:Hstep.
      + by rewrite (try_step_raise _ _ _ _ _ Hstep).
      + destruct (try_step_return (PyStr.lower (PyStr.strip line)) a st'
                    _ _ _ _ Hstep) as (-> & _).
        rewrite data_rows_snoc. apply Forall_app. split; [done|].
        apply Forall_singleton. unfold good. simpl.
        destruct (resolve_command_normal_form_aux NLE_ACTIONS line)
          as [Hidem Hsame].
        by rewrite Hsame, Hidem.
    - destruct Hstart as (-> & _). simpl. constructor. }
  destruct (proj1 (Forall_forall _ _) Hall row Hin) as [Hres Hnormal].
  split; [exact Hres|]. split; [exact Hnormal|].
  unfold resolve_command in Hres. rewrite Hnormal in Hres.
  unfold resolve_action_str in Hres.
  destruct (String.eqb (rec_command row) "quit"); [done|].
  destruct (String.eqb (rec_command row) "help"); [done|].
  destruct (String.eqb (rec_command row) "actionlist"); [done|].
  destruct (PyStr.startswith "action " (rec_command row)); [by right|].
  left. destruct (NLE_ACTIONS !! rec_command row); [|done].
  by injection Hres as ->.
Qed.

(** X14. From the header on, the [actions] dict of the summary counts the
    data rows per command: a command has an entry exactly when some row
    carries it, and the entry is the number of such rows. *)
Theorem summary_actions_count_rows
    task_name seed max_steps stdin (st : loop_state R E) :
  let r := episode_from task_name seed max_steps stdin st in
  at_header st ->
  forall log rows cmd, summary r = Some log -> trajectory r = Some rows ->
    count_of (log_actions log) cmd = command_count cmd (data_rows rows)
    /\ (log_actions log !! cmd = None <->
        command_count cmd (data_rows rows) = 0%nat).
Proof.
  intros r Hstart log rows cmd Hsum Htr.
  pose proof (episode_from_view task_name seed max_steps stdin st) as Hview.
  cbv zeta in Hview. fold r in Hview.
  destruct Hview as (_ & Htr' & _ & _ & _ & Hlog).
  rewrite Htr' in Htr. injection Htr as <-.
  destruct (Hlog log Hsum) as [-> _].
  assert ((forall key,
             count_of (actions (tracker (while_loop max_steps stdin st).2)) key
             = command_count key
                 (data_rows (csv_file (while_loop max_steps stdin st).2)))
          /\ (forall key n,
                actions (tracker (while_loop max_steps stdin st).2) !! key
                = Some n -> (0 < n)%nat)) as [Hcount Hpos].
  { apply (while_loop_preserves
      (fun st => (forall key, count_of (actions (tracker st)) key
                              = command_count key (data_rows (csv_file st)))
                 /\ (forall key n, actions (tracker st) !! key = Some n ->
                       (0 < n)%nat))).
    - done.
    - intros s a st' [Hcount Hpos].
      destruct (env_step a (env st')) as [[e | [[o rw] d]] env'] eqn:Hstep.
      + by rewrite (try_step_raise _ _ _ _ _ Hstep).
      + destruct (try_step_return s a st' _ _ _ _ Hstep)
          as (-> & _ & _ & _ & _ & _ & -> & _).
        split.
        * intros key. rewrite data_rows_snoc, command_count_snoc,
            count_of_add_step, Hcount. done.
        * by apply positive_add_step.
    - destruct Hstart as (-> & _ & _ & _ & _ & -> & _).
      split; [done|]. intros key n. simpl. by rewrite lookup_empty. }
  simpl. specialize (Hcount cmd). split; [exact Hcount|].
  unfold count_of in Hcount.
  destruct (actions _ !! cmd) as [n|] eqn:Hn; simpl in Hcount.
  - specialize (Hpos cmd n Hn). split; [done | lia].
  - by split.
Qed.

End RowFacts.

(** ** The snapshot of one observation *)

Section SnapshotFacts.

Lemma hd_drop (zs : list Z) n : hd 0 (drop n zs) = nth n zs 0.
Proof.
  revert n. induction zs as [|z zs IH]; intros [|n]; simpl;
    first [done | apply IH].
Qed.

(** [tolist] of the character grid: its rows of codes. *)
Lemma tolist_grid_array g : tolist (grid_array g) = grid_json g.
Proof.
  unfold tolist, grid_array, grid_json, grid_rows, grid_row. simpl.
  f_equal. rewrite map_map. apply map_ext. intros i. f_equal.
  rewrite map_map. apply map_ext. intros j. f_equal.
  rewrite drop_drop, hd_drop, !Nat.mul_1_r. unfold cell.
  by rewrite (map_nth (fun b => Z.of_N (Byte.to_N b)) (g_data g) x00).
Qed.

Lemma json_items_keys items js :
  json_items items = inr js -> map fst js = map fst items.
Proof.
  revert js. induction items as [|[k v] items IH]; intros js; simpl.
  - by intros [= <-].
  - destruct (json_value v) as [e|j]; [done|].
    destruct (json_items items) as [e|js']; [done|].
    intros [= <-]. simpl. by rewrite (IH js').
Qed.

Lemma json_items_ok items :
  (forall k v, (k, v) ∈ items -> exists j, v = PPlain j) ->
  exists js, json_items items = inr js.
Proof.
  induction items as [|[k v] items IH]; intros Hall; simpl; [eauto|].
  destruct (Hall k v) as [j ->]; [left|]. simpl.
  destruct IH as [js ->]; [|eauto].
  intros k' v' Hin. apply (Hall k' v'). by right.
Qed.

(** What [json.dump] writes follows the items entry by entry. *)
Lemma json_items_lookup items js i k v :
  json_items items = inr js -> items !! i = Some (k, v) ->
  exists j, json_value v = inr j /\ js !! i = Some (k, j).
Proof.
  revert js i. induction items as [|[k' v'] items IH]; intros js i; simpl;
    [done|].
  destruct (json_value v') as [e|j'] eqn:Hv; [done|].
  destruct (json_items items) as [e|js']; [done|].
  intros [= <-]. destruct i as [|i]; simpl.
  - intros [= -> ->]. by exists j'.
  - by apply IH.
Qed.

Lemma json_items_plain items js k t :
  json_items items = inr js -> (k, PObject t) ∉ items.
Proof.
  revert js. induction items as [|[k' v'] items IH]; intros js Hitems Hin.
  - by apply elem_of_nil in Hin.
  - simpl in Hitems. destruct (json_value v') as [e|j'] eqn:Hv; [done|].
    destruct (json_items items) as [e|js']; [done|].
    apply elem_of_cons in Hin as [[= <- <-] | Hin]; [done|].
    by apply (IH js').
Qed.

(** X20. The snapshot of an observation can be written exactly when the
    observation holds nothing besides arrays and plain values.  A written
    snapshot is a JSON object with the keys of the observation in their
    order, and its "tty_chars" entry, at the place the observation has it,
    is the grid as rows of character codes. *)
Theorem snapshot_contents (o : observation) :
  ((exists j, json_dump (serializable_obs o) = inr j) <->
   forall k t, (k, PObject t) ∉ obs_items o)
  /\ (forall j, json_dump (serializable_obs o) = inr j ->
        exists js, j = JDict js
          /\ map fst js = map fst (obs_items o)
          /\ (forall g, tty_chars o = Some g ->
                js !! length (items_before o)
                = Some ("tty_chars", grid_json g))).
Proof.
  split.
  - split.
    + intros [j Hj] k t Hin.
      assert ((k, PObject t) ∈ serializable_obs o) as Hser.
      { unfold serializable_obs. apply list_elem_of_fmap.
        by exists (k, PObject t). }
      unfold json_dump in Hj.
      destruct (json_items (serializable_obs o)) as [e|js] eqn:Hitems; [done|].
      by apply (json_items_plain _ _ k t Hitems).
    + intros Hnone.
      destruct (json_items_ok (serializable_obs o)) as [js Hjs].
      * intros k v Hin. unfold serializable_obs in Hin.
        apply list_elem_of_fmap in Hin as ([k0 v0] & [= -> ->] & Hin).
        destruct v0 as [a|j|t]; simpl; [eauto | eauto |].
        by destruct (Hnone k0 t).
      * exists (JDict js). unfold json_dump. by rewrite Hjs.
  - intros j Hj. unfold json_dump in Hj.
    destruct (json_items (serializable_obs o)) as [e|js] eqn:Hitems; [done|].
    injection Hj as <-. exists js. split; [done|].
    pose proof (json_items_keys _ _ Hitems) as Hkeys. split.
    + rewrite Hkeys. unfold serializable_obs. rewrite map_map. done.
    + intros g Hg.
      destruct (json_items_lookup _ _ (length (items_before o)) "tty_chars"
                  (PPlain (tolist (grid_array g))) Hitems) as (j & Hv & Hj).
      * unfold serializable_obs.
        change (map ?f ?l) with (f <$> l). rewrite list_lookup_fmap.
        unfold obs_items. rewrite Hg.
        change ([?x] ++ ?l)%list with (x :: l).
        by rewrite (list_lookup_middle _ _ _ (length (items_before o))).
      * simpl in Hv. injection Hv as <-. by rewrite <-tolist_grid_array.
Qed.

End SnapshotFacts.

(** ** Further runs of the stub *)

Lemma seed_recorded_witness :
  let r := run_human_episode (Number0 := Stub.exact) (Environment0 := Stub.env)
             "NetHackScore-v0" "human_play" 1000 (Some (-1)) 0 ["w"; "quit"] in
  result r = Raised seed_out_of_range /\ env_calls r = [].
Proof.
  intros r.
  destruct (@seed_recorded _ Stub.exact _ Stub.env "NetHackScore-v0"
              "human_play" 1000 (Some (-1)) 0 ["w"; "quit"])
    as (_ & _ & _ & Hout & _).
  apply Hout. unfold get_unique_seed. lia.
Defined.

Lemma setup_failure_writes_nothing_witness :
  let r := Stub.play "Unresettable-v0" 1000 ["w"; "quit"] in
  result r = ErrorRecord "reset failed" "human_play" /\ trajectory r = None.
Proof.
  intros r.
  destruct (@setup_failure_writes_nothing _ Stub.exact _ Stub.env
              "Unresettable-v0" "human_play" 1000 (Some 7) 0 ["w"; "quit"])
    as (Hnothing & _ & _ & Hreset & _).
  assert (result r = ErrorRecord "reset failed" "human_play") as Hres.
  { apply (Hreset ltac:(unfold get_unique_seed; lia) "reset failed"
             {| Stub.broken_reset := true; Stub.moves := 0 |}
             {| Stub.broken_reset := true; Stub.moves := 0 |}
             {| Stub.broken_reset := true; Stub.moves := 0 |});
      reflexivity. }
  split; [exact Hres|].
  by destruct (Hnothing _ _ Hres) as (_ & Htr & _).
Defined.

Lemma summary_statistics_witness :
  let r := Stub.replay 1000 ["w"; "d"; "quit"] in
  exists log, summary r = Some log /\ log_steps log = log_num_steps log.
Proof.
  intros r.
  destruct (summary r) as [log|] eqn:Hsum; [|vm_compute in Hsum; discriminate].
  exists log. split; [done|].
  by destruct (@summary_statistics _ Stub.exact _ Stub.env "human_play" 7
                 1000 ["w"; "d"; "quit"] Stub.at_start
                 ltac:(unfold at_header; repeat split) log Hsum).
Defined.

Lemma no_steps_allowed_witness :
  trajectory (Stub.replay 0 ["w"; "quit"]) = Some [csv_header]
  /\ last (env_calls (Stub.replay 0 ["w"; "quit"])) = Some CallClose.
Proof.
  destruct (@no_steps_allowed _ Stub.exact _ Stub.env "human_play" 7 0
              ["w"; "quit"] Stub.at_start)
    as (_ & Htr & _ & _ & Hcalls & _);
    [unfold at_header; repeat split | lia |].
  split; [exact Htr|].
  unfold Stub.replay. rewrite Hcalls. apply last_snoc.
Defined.

Lemma end_of_input_skips_summary_and_close_witness :
  let r := Stub.replay 1000 [] in
  ended r = Some EndOfInput /\ summary r = None
  /\ closes (env_calls r) = 0%nat
  /\ closes (env_calls (Stub.replay 1000 ["w"; "quit"])) = 1%nat.
Proof.
  intros r.
  destruct (@end_of_input_skips_summary_and_close _ Stub.exact _ Stub.env
              "human_play" 7 1000 [] Stub.at_start)
    as (Heof & _ & Hempty); [unfold at_header; repeat split|].
  destruct Hempty as (Hended & _); [reflexivity | lia |].
  split; [exact Hended|].
  destruct (Heof Hended) as (_ & Hsum & Hclosed & _).
  split; [exact Hsum|]. split; [exact Hclosed|].
  destruct (@end_of_input_skips_summary_and_close _ Stub.exact _ Stub.env
              "human_play" 7 1000 ["w"; "quit"] Stub.at_start)
    as (_ & Hclose & _); [unfold at_header; repeat split|].
  by destruct (Hclose ByUser) as (Hone & _);
    [vm_compute; reflexivity | discriminate |].
Defined.

Lemma rows_match_steps_applied_witness :
  let r := Stub.replay 1000 ["w"; "action 99"; "kick"; "quit"] in
  (exists rows, trajectory r = Some rows /\ length rows = 3%nat)
  /\ (exists log, summary r = Some log /\ log_num_steps log = 2%nat).
Proof.
  intros r.
  destruct (@rows_match_steps_applied _ Stub.exact _ Stub.env
              "human_play" 7 1000 ["w"; "action 99"; "kick"; "quit"]
              Stub.at_start 2)
    as [Hrows Hlog];
    [unfold at_header; repeat split | vm_compute; reflexivity |].
  fold (Stub.replay 1000 ["w"; "action 99"; "kick"; "quit"]) in Hrows, Hlog.
  fold r in Hrows, Hlog.
  split.
  - destruct (trajectory r) as [rows|] eqn:Htr; [|vm_compute in Htr; discriminate].
    exists rows. split; [done|]. by apply Hrows.
  - destruct (summary r) as [log|] eqn:Hsum; [|vm_compute in Hsum; discriminate].
    exists log. split; [done|]. by apply Hlog.
Defined.

Lemma meta_commands_witness :
  while_loop 1000 ["help"; "quit"; "w"; "quit"] Stub.at_start
  = while_loop 1000 ["w"; "quit"] (say OutHelp (show_state 1000 Stub.at_start))
  /\ (while_loop 1000 [" Quit "; "w"] Stub.at_start).1 = ByUser.
Proof.
  destruct (@meta_commands _ Stub.exact _ Stub.env 1000 "help" Stub.at_start)
    as [_ Hhelp]; [reflexivity|].
  destruct (@meta_commands _ Stub.exact _ Stub.env 1000 " Quit " Stub.at_start)
    as [Hquit _]; [reflexivity|].
  split.
  - destruct Hhelp as (o & Hdrop & _); [left; vm_compute; reflexivity|].
    rewrite (Hdrop "quit" ["w"; "quit"]).
    assert (o = OutHelp) as ->; [|reflexivity].
    specialize (Hdrop "quit" []). rewrite !while_loop_unfold in Hdrop.
    vm_compute in Hdrop. by injection Hdrop.
  - rewrite (Hquit ltac:(vm_compute; reflexivity) ["w"]). reflexivity.
Defined.

Lemma main_reports_witness :
  main (Number0 := Stub.exact) (Environment0 := Stub.env)
    "NetHackScore-v0" "human_play" 1000 (Some 7) 0 ["w"; "quit"]
  = Traceback escapechar_not_one_character
  /\ main (Number0 := Stub.exact) (Environment0 := Stub.env)
       "Rogue-v0" "human_play" 1000 (Some 7) 0 ["w"] = Completed None.
Proof.
  split.
  - destruct (@main_reports _ Stub.exact _ Stub.env
                "NetHackScore-v0" "human_play" 1000 (Some 7) 0 ["w"; "quit"])
      as (_ & _ & _ & _ & Hsetup).
    apply (Hsetup Stub.fresh Stub.fresh (Stub.look Stub.fresh []) Stub.fresh);
      [unfold get_unique_seed; lia | reflexivity | reflexivity | reflexivity].
  - destruct (@main_reports _ Stub.exact _ Stub.env
                "Rogue-v0" "human_play" 1000 (Some 7) 0 ["w"])
      as (_ & Hnone & _).
    apply Hnone. eexists. reflexivity.
Defined.

Lemma rows_and_snapshots_numbered_witness :
  let r := Stub.replay 1000 ["w"; "zzz"; "kick"; "quit"] in
  exists rows, trajectory r = Some rows
    /\ map rec_step (data_rows rows) = [0; 1]%nat
    /\ map fst (snapshots r) = [1; 2]%nat.
Proof.
  intros r.
  destruct (trajectory r) as [rows|] eqn:Htr; [|vm_compute in Htr; discriminate].
  exists rows. split; [done|].
  destruct (@rows_and_snapshots_numbered _ Stub.exact _ Stub.env
              "human_play" 7 1000 ["w"; "zzz"; "kick"; "quit"] Stub.at_start
              ltac:(unfold at_header; repeat split) rows Htr)
    as [Hrows Hsnap].
  assert (length (data_rows rows) = 2%nat) as Hlen.
  { vm_compute in Htr. injection Htr as <-. reflexivity. }
  rewrite Hlen in Hrows, Hsnap. by split.
Defined.

Lemma done_row_is_last_witness :
  ended (Stub.replay 1000 ["w"; "d"; "s"; "a"]) = Some ByEnvironment.
Proof.
  set (r := Stub.replay 1000 ["w"; "d"; "s"; "a"]).
  destruct (trajectory r) as [rows|] eqn:Htr; [|vm_compute in Htr; discriminate].
  destruct (@done_row_is_last _ Stub.exact _ Stub.env
              "human_play" 7 1000 ["w"; "d"; "s"; "a"] Stub.at_start
              ltac:(unfold at_header; repeat split) rows Htr)
    as [_ Hended].
  apply Hended. vm_compute in Htr. injection Htr as <-.
  eexists. split; reflexivity.
Defined.

Lemma step_limit_respected_witness :
  let r := Stub.replay 2 ["w"; "d"; "s"; "a"] in
  exists log, summary r = Some log /\ Z.of_nat (log_num_steps log) = 2.
Proof.
  intros r.
  destruct (summary r) as [log|] eqn:Hsum; [|vm_compute in Hsum; discriminate].
  exists log. split; [done|].
  destruct (@step_limit_respected _ Stub.exact _ Stub.env
              "human_play" 7 2 ["w"; "d"; "s"; "a"] Stub.at_start
              ltac:(unfold at_header; repeat split))
    as [_ Hlog].
  destruct (Hlog log Hsum) as [_ Hlimit].
  apply Hlimit. vm_compute. reflexivity.
Defined.

Lemma rows_hold_resolved_commands_witness :
  let r := Stub.replay 1000 [" Action 3 "; "quit"] in
  exists rows row, trajectory r = Some rows /\ row ∈ data_rows rows
    /\ resolve_command NLE_ACTIONS (rec_command row) = Resolved (rec_action row).
Proof.
  intros r.
  destruct (trajectory r) as [rows|] eqn:Htr; [|vm_compute in Htr; discriminate].
  destruct (data_rows rows) as [|row others] eqn:Hrows.
  { vm_compute in Htr. injection Htr as <-. discriminate Hrows. }
  exists rows, row. split; [done|].
  assert (row ∈ data_rows rows) as Hin by (rewrite Hrows; left).
  split; [exact Hin|].
  by destruct (@rows_hold_resolved_commands _ Stub.exact _ Stub.env
                 "human_play" 7 1000 [" Action 3 "; "quit"] Stub.at_start
                 ltac:(unfold at_header; repeat split) rows row Htr Hin).
Defined.

Lemma summary_actions_count_rows_witness :
  let r := Stub.replay 1000 ["w"; "d"; "W"] in
  exists log rows, summary r = Some log /\ trajectory r = Some rows
    /\ count_of (log_actions log) "w" = command_count "w" (data_rows rows).
Proof.
  intros r.
  destruct (summary r) as [log|] eqn:Hsum; [|vm_compute in Hsum; discriminate].
  destruct (trajectory r) as [rows|] eqn:Htr; [|vm_compute in Htr; discriminate].
  exists log, rows. split; [done|]. split; [done|].
  by destruct (@summary_actions_count_rows _ Stub.exact _ Stub.env
                 "human_play" 7 1000 ["w"; "d"; "W"] Stub.at_start
                 ltac:(unfold at_header; repeat split) log rows "w" Hsum Htr).
Defined.

Lemma snapshot_contents_witness :
  exists j, json_dump (serializable_obs (Stub.look Stub.fresh [])) = inr j.
Proof.
  destruct (snapshot_contents (Stub.look Stub.fresh [])) as [[_ Hok] _].
  apply Hok. intros k t Hin. simpl in Hin.
  apply elem_of_cons in Hin as [[=] | Hin].
  apply elem_of_cons in Hin as [[=] | Hin]. by apply elem_of_nil in Hin.
Defined.
